(** * CNFL client data layer: change-event reconciliation, initial load and
    session operations

    A shallow embedding of [src/contexts/DataContext.tsx] (both revisions of
    the provider: the one that reads through [api.getInitialData] and the one
    that queries the gateway itself) and of [src/contexts/AuthContext.tsx].

    React state is modelled by explicit state passing: a [setState] with an
    updater function is the updater itself, applied to the previous state. *)

From Stdlib Require Import String Ascii List ZArith Lia Bool.
From Stdlib Require Import Permutation Sorted.
Import ListNotations.
Local Open Scope string_scope.
Local Open Scope list_scope.

(* ===================================================================== *)
(** ** The JavaScript built-ins the providers call *)
(* ===================================================================== *)

Module Js.

(** A JavaScript number that is either an integer or [NaN] ([None]).  The
    only numbers the providers compute are epoch milliseconds and their
    differences; a difference of two time values may be rounded by the host
    but keeps its sign, and only the sign is read. *)
Definition number := option Z.

Definition sub (x y : number) : number :=
  match x, y with
  | Some a, Some b => Some (a - b)%Z
  | _, _ => None
  end.

Section ArrayMethods.
Context {A : Type}.

(** [Array.prototype.some]. *)
Definition some (p : A -> bool) (items : list A) : bool := existsb p items.

(** [Array.prototype.findIndex]; [None] stands for [-1]. *)
Fixpoint findIndex (p : A -> bool) (items : list A) : option nat :=
  match items with
  | [] => None
  | x :: rest => if p x then Some 0%nat else option_map S (findIndex p rest)
  end.

(** [items[index] = v] for an index inside the array.  For an index outside
    it JavaScript would grow the array, and this function leaves the list as
    it is; the only caller passes an index returned by [findIndex], which is
    inside (see [findIndex_lt]). *)
Fixpoint assign (index : nat) (v : A) (items : list A) : list A :=
  match items, index with
  | [], _ => []
  | _ :: rest, O => v :: rest
  | x :: rest, S i => x :: assign i v rest
  end.

(** [items.push(v)]. *)
Definition push (items : list A) (v : A) : list A := items ++ [v].

(** [Array.prototype.filter]. *)
Definition filter (p : A -> bool) (items : list A) : list A :=
  List.filter p items.

(** [Array.prototype.sort(comparefn)].  ECMAScript reads a [NaN] returned
    by the comparator as [+0] and requires the sort to be stable; for a
    consistent comparator the result is therefore the one stable sorted
    arrangement, which this insertion sort computes.  For an inconsistent
    comparator the order is left to the engine. *)
Definition sortCompare (v : number) : Z :=
  match v with Some z => z | None => 0%Z end.

Fixpoint insert (comparefn : A -> A -> number) (x : A) (sorted : list A)
  : list A :=
  match sorted with
  | [] => [x]
  | y :: rest =>
      if (sortCompare (comparefn x y) <=? 0)%Z then x :: y :: rest
      else y :: insert comparefn x rest
  end.

Fixpoint sort (comparefn : A -> A -> number) (items : list A) : list A :=
  match items with
  | [] => []
  | x :: rest => insert comparefn x (sort comparefn rest)
  end.

(** The comparator lets [a] stand before [b]. *)
Definition notAfter (comparefn : A -> A -> number) (a b : A) : Prop :=
  (sortCompare (comparefn a b) <= 0)%Z.
End ArrayMethods.

End Js.

(* ===================================================================== *)
(** ** DataContext: the snapshot and its reconciliation *)
(* ===================================================================== *)

Module Data.

(** Modelled from the spec: the record types of ['../types'] ([Event],
    [Player], [Announcement], ...) are imported by the providers but are not
    among the sources.  Every entity is a plain record with an [id]; the
    reconciliation reads [id], [timestamp] and [seasonNumber] and treats a
    row as opaque otherwise, so one row type serves all ten tables: it also
    carries a Player's [points], the SiteSettings flag, and the remaining
    columns uninterpreted. *)
Record Row := {
  id : string;
  timestamp : string;
  seasonNumber : string;
  points : list Z;
  showParticipantTeams : bool;
  columns : list (string * string)
}.

Record AppState := {
  users : list Row;
  events : list Row;
  teams : list Row;
  players : list Row;
  participantTeams : list Row;
  replacementRequests : list Row;
  announcements : list Row;
  chatMessages : list Row;
  cnflHistory : list Row;
  siteSettings : Row
}.

(** The object literal [{ showParticipantTeams: false }]. *)
Definition defaultSiteSettings : Row :=
  {| id := ""; timestamp := ""; seasonNumber := ""; points := [];
     showParticipantTeams := false; columns := [] |}.

Definition INITIAL_STATE : AppState :=
  {| users := []; events := []; teams := []; players := [];
     participantTeams := []; replacementRequests := []; announcements := [];
     chatMessages := []; cnflHistory := [];
     siteSettings := defaultSiteSettings |}.

(** The nine array-valued keys of [AppState] ([keyof AppState] without
    [siteSettings]). *)
Inductive StateKey :=
| KUsers | KEvents | KTeams | KPlayers | KParticipantTeams
| KReplacementRequests | KAnnouncements | KChatMessages | KCnflHistory.

(** [prevState[stateKey]]. *)
Definition getKey (k : StateKey) (s : AppState) : list Row :=
  match k with
  | KUsers => users s
  | KEvents => events s
  | KTeams => teams s
  | KPlayers => players s
  | KParticipantTeams => participantTeams s
  | KReplacementRequests => replacementRequests s
  | KAnnouncements => announcements s
  | KChatMessages => chatMessages s
  | KCnflHistory => cnflHistory s
  end.

(** [{ ...prevState }] followed by [newState[stateKey] = items]. *)
Definition setKey (k : StateKey) (items : list Row) (s : AppState) : AppState :=
  let mk u e t p pt rr an cm ch :=
    {| users := u; events := e; teams := t; players := p;
       participantTeams := pt; replacementRequests := rr;
       announcements := an; chatMessages := cm; cnflHistory := ch;
       siteSettings := siteSettings s |} in
  match k with
  | KUsers => mk items (events s) (teams s) (players s) (participantTeams s)
                (replacementRequests s) (announcements s) (chatMessages s)
                (cnflHistory s)
  | KEvents => mk (users s) items (teams s) (players s) (participantTeams s)
                (replacementRequests s) (announcements s) (chatMessages s)
                (cnflHistory s)
  | KTeams => mk (users s) (events s) items (players s) (participantTeams s)
                (replacementRequests s) (announcements s) (chatMessages s)
                (cnflHistory s)
  | KPlayers => mk (users s) (events s) (teams s) items (participantTeams s)
                (replacementRequests s) (announcements s) (chatMessages s)
                (cnflHistory s)
  | KParticipantTeams =>
      mk (users s) (events s) (teams s) (players s) items
         (replacementRequests s) (announcements s) (chatMessages s)
         (cnflHistory s)
  | KReplacementRequests =>
      mk (users s) (events s) (teams s) (players s) (participantTeams s)
         items (announcements s) (chatMessages s) (cnflHistory s)
  | KAnnouncements =>
      mk (users s) (events s) (teams s) (players s) (participantTeams s)
         (replacementRequests s) items (chatMessages s) (cnflHistory s)
  | KChatMessages =>
      mk (users s) (events s) (teams s) (players s) (participantTeams s)
         (replacementRequests s) (announcements s) items (cnflHistory s)
  | KCnflHistory =>
      mk (users s) (events s) (teams s) (players s) (participantTeams s)
         (replacementRequests s) (announcements s) (chatMessages s) items
  end.

(** [{ ...prevState, siteSettings: newRecord as SiteSettings }]. *)
Definition setSiteSettings (r : Row) (s : AppState) : AppState :=
  {| users := users s; events := events s; teams := teams s;
     players := players s; participantTeams := participantTeams s;
     replacementRequests := replacementRequests s;
     announcements := announcements s; chatMessages := chatMessages s;
     cnflHistory := cnflHistory s; siteSettings := r |}.

(** [tableKeyMap[table]].  A name that is no own key of the literal gives
    [undefined], or a member inherited from [Object.prototype], which is no
    key of the state either; the guard
    [!stateKey || !Array.isArray(state[stateKey])] returns for both, and
    both are [None] here. *)
Definition tableKeyMap (table : string) : option StateKey :=
  if table =? "profiles" then Some KUsers
  else if table =? "events" then Some KEvents
  else if table =? "teams" then Some KTeams
  else if table =? "players" then Some KPlayers
  else if table =? "participant_teams" then Some KParticipantTeams
  else if table =? "replacement_requests" then Some KReplacementRequests
  else if table =? "announcements" then Some KAnnouncements
  else if table =? "chat_messages" then Some KChatMessages
  else if table =? "cnfl_history" then Some KCnflHistory
  else None.

(** The payload of a [postgres_changes] notification:
    [{ table, eventType, new, old }]. *)
Record Payload := {
  table : string;
  eventType : string;
  new : Row;
  old : Row
}.

Section Reconciliation.
(** [new Date(s).getTime()]: the host's date parser, [None] for the [NaN]
    of an invalid date. *)
Variable dateTime : string -> Js.number.

(** [a.localeCompare(b)]: the host's string comparison; negative, zero or
    positive. *)
Variable localeCompare : string -> string -> Z.

(** The three comparators of the "keep sorted lists sorted" step. *)
Definition byTimestampDesc (a b : Row) : Js.number :=
  Js.sub (dateTime (timestamp b)) (dateTime (timestamp a)).

Definition byTimestampAsc (a b : Row) : Js.number :=
  Js.sub (dateTime (timestamp a)) (dateTime (timestamp b)).

Definition bySeasonNumber (a b : Row) : Js.number :=
  Some (localeCompare (seasonNumber a) (seasonNumber b)).

Definition keepSorted (stateKey : StateKey) (items : list Row) : list Row :=
  match stateKey with
  | KAnnouncements => Js.sort byTimestampDesc items
  | KChatMessages => Js.sort byTimestampAsc items
  | KCnflHistory => Js.sort bySeasonNumber items
  | _ => items
  end.

(** [eventType === 'DELETE' ? oldRecord.id : newRecord.id]. *)
Definition recordIdOf (payload : Payload) : string :=
  if eventType payload =? "DELETE" then id (old payload)
  else id (new payload).

(** The INSERT / UPDATE / DELETE branches on a copy of the collection. *)
Definition applyEvent (payload : Payload) (items : list Row) : list Row :=
  let recordId := recordIdOf payload in
  let newRecord := new payload in
  if eventType payload =? "INSERT" then
    if negb (Js.some (fun item => id item =? recordId) items)
    then Js.push items newRecord else items
  else if eventType payload =? "UPDATE" then
    match Js.findIndex (fun item => id item =? recordId) items with
    | Some index => Js.assign index newRecord items
    | None => Js.push items newRecord
    end
  else if eventType payload =? "DELETE" then
    Js.filter (fun item => negb (id item =? recordId)) items
  else items.

(** [handleDbChange], with the state update it enqueues applied to the
    previous state.  [Array.isArray(state[stateKey])] reads the state the
    effect closed over, [INITIAL_STATE], where each of the nine keys holds
    an array, so the guard only rejects names outside [tableKeyMap]. *)
Definition handleDbChange (payload : Payload) (prevState : AppState)
  : AppState :=
  if table payload =? "site_settings" then
    if (eventType payload =? "UPDATE") || (eventType payload =? "INSERT")
    then setSiteSettings (new payload) prevState
    else prevState
  else
    match tableKeyMap (table payload) with
    | None => prevState
    | Some stateKey =>
        let items := applyEvent payload (getKey stateKey prevState) in
        setKey stateKey (keepSorted stateKey items) prevState
    end.

(** Change events are applied one by one, in order of arrival. *)
Definition applyAll (payloads : list Payload) (s : AppState) : AppState :=
  fold_left (fun st payload => handleDbChange payload st) payloads s.

(** *** Vocabulary of the properties *)

(** The instant of a row, when its timestamp is a valid date. *)
Definition timeOf (r : Row) : Js.number := dateTime (timestamp r).

Definition timed (rows : list Row) : Prop :=
  Forall (fun r => timeOf r <> None) rows.

Definition timeLe (a b : Row) : Prop :=
  match timeOf a, timeOf b with
  | Some x, Some y => (x <= y)%Z
  | _, _ => False
  end.

Definition seasonLe (a b : Row) : Prop :=
  (localeCompare (seasonNumber a) (seasonNumber b) <= 0)%Z.

(** Non-increasing timestamps, non-decreasing timestamps, non-decreasing
    season numbers: every row against every later row. *)
Definition newestFirst (rows : list Row) : Prop :=
  StronglySorted (fun a b => timeLe b a) rows.

Definition oldestFirst (rows : list Row) : Prop :=
  StronglySorted timeLe rows.

Definition seasonsAscending (rows : list Row) : Prop :=
  StronglySorted seasonLe rows.

(** The order a collection is kept in, with the validity of the
    timestamps it is stated over. *)
Definition inOrder (stateKey : StateKey) (rows : list Row) : Prop :=
  match stateKey with
  | KAnnouncements => timed rows /\ newestFirst rows
  | KChatMessages => timed rows /\ oldestFirst rows
  | KCnflHistory => seasonsAscending rows
  | _ => True
  end.

(** The timestamps of a timestamp-ordered collection are valid dates. *)
Definition timedFor (stateKey : StateKey) (rows : list Row) : Prop :=
  match stateKey with
  | KAnnouncements | KChatMessages => timed rows
  | _ => True
  end.

Definition timedState (s : AppState) : Prop :=
  timed (announcements s) /\ timed (chatMessages s).

Definition ordered (s : AppState) : Prop :=
  inOrder KAnnouncements (announcements s)
  /\ inOrder KChatMessages (chatMessages s)
  /\ inOrder KCnflHistory (cnflHistory s).

(** An event that puts a row into a timestamp-ordered collection carries
    a row with a valid timestamp. *)
Definition timedEvent (payload : Payload) : Prop :=
  table payload = "announcements" \/ table payload = "chat_messages" ->
  eventType payload = "INSERT" \/ eventType payload = "UPDATE" ->
  timeOf (new payload) <> None.

End Reconciliation.

(** The collections the handler re-sorts. *)
Definition sortedKey (stateKey : StateKey) : bool :=
  match stateKey with
  | KAnnouncements | KChatMessages | KCnflHistory => true
  | _ => false
  end.

(** Ids are unique within a collection. *)
Definition uniqueIds (rows : list Row) : Prop := NoDup (map id rows).

(** How many rows of a collection carry a given id. *)
Definition occurrences (i : string) (rows : list Row) : nat :=
  count_occ string_dec (map id rows) i.

Definition StateKey_eqb (a b : StateKey) : bool :=
  match a, b with
  | KUsers, KUsers | KEvents, KEvents | KTeams, KTeams
  | KPlayers, KPlayers | KParticipantTeams, KParticipantTeams
  | KReplacementRequests, KReplacementRequests
  | KAnnouncements, KAnnouncements | KChatMessages, KChatMessages
  | KCnflHistory, KCnflHistory => true
  | _, _ => false
  end.

(** The event is an INSERT, UPDATE or DELETE of the row [i] of the
    collection [stateKey]. *)
Definition concerns (stateKey : StateKey) (i : string) (payload : Payload)
  : bool :=
  match tableKeyMap (table payload) with
  | Some k => StateKey_eqb stateKey k
  | None => false
  end
  && (recordIdOf payload =? i)
  && ((eventType payload =? "INSERT") || (eventType payload =? "UPDATE")
      || (eventType payload =? "DELETE")).

(** The last event of a sequence that concerns the row [i] of
    [stateKey]. *)
Definition finalEvent (stateKey : StateKey) (i : string)
  (payloads : list Payload) : option Payload :=
  find (concerns stateKey i) (rev payloads).

(** The ten table names the handler knows. *)
Definition recognizedTables : list string :=
  ["profiles"; "events"; "teams"; "players"; "participant_teams";
   "replacement_requests"; "announcements"; "chat_messages"; "cnfl_history";
   "site_settings"].

(** A comparator that orders strings consistently: reversing the operands
    reverses the sign, and "not after" is transitive. *)
Definition consistent (compare : string -> string -> Z) : Prop :=
  (forall a b, Z.sgn (compare b a) = (- Z.sgn (compare a b))%Z)
  /\ (forall a b c,
        (compare a b <= 0)%Z -> (compare b c <= 0)%Z -> (compare a c <= 0)%Z).

(** Comparison of strings character by character, as a [localeCompare]. *)
Definition lexCompare (a b : string) : Z :=
  match String.compare a b with
  | Lt => (-1)%Z
  | Eq => 0%Z
  | Gt => 1%Z
  end.

(** A fragment of the date parser: two instants in ISO format with their
    epoch milliseconds, every other string invalid. *)
Definition sampleDate (s : string) : Js.number :=
  if s =? "2024-01-01T00:00:00Z" then Some 1704067200000%Z
  else if s =? "2024-06-01T00:00:00Z" then Some 1717200000000%Z
  else None.

(** Rows and events of the scenarios. *)
Definition row (i ts season : string) (pts : list Z) : Row :=
  {| id := i; timestamp := ts; seasonNumber := season; points := pts;
     showParticipantTeams := false; columns := [] |}.

Definition change (tbl kind : string) (newRecord oldRecord : Row) : Payload :=
  {| table := tbl; eventType := kind; new := newRecord; old := oldRecord |}.

Definition p1 : Row := row "p1" "" "" [].
Definition p1Scored : Row := row "p1" "" "" [10%Z; 20%Z].
Definition a0 : Row := row "a0" "2024-01-01T00:00:00Z" "" [].
Definition a1 : Row := row "a1" "2024-06-01T00:00:00Z" "" [].

(** The snapshot after an initial load that returned the single player
    [p1] without points, and the one with the single announcement [a0]. *)
Definition onePlayer : AppState := setKey KPlayers [p1] INITIAL_STATE.
Definition oneAnnouncement : AppState :=
  setKey KAnnouncements [a0] INITIAL_STATE.

(** *** The initial load *)

(** A gateway read resolves to [{ data, error }]; the client reports a
    failure in [error] and does not reject. *)
Record PostgrestError := { code : string; message : string }.

Record Response (A : Type) := { data : option A; error : option PostgrestError }.
Arguments data {A} _.
Arguments error {A} _.

(** The ten results of the [Promise.all] batch, in the order of the batch. *)
Record Reads := {
  usersRead : Response (list Row);
  eventsRead : Response (list Row);
  teamsRead : Response (list Row);
  playersRead : Response (list Row);
  participantTeamsRead : Response (list Row);
  replacementRequestsRead : Response (list Row);
  announcementsRead : Response (list Row);
  chatMessagesRead : Response (list Row);
  cnflHistoryRead : Response (list Row);
  siteSettingsRead : Response Row
}.

(** What the provider holds: the two [useState] cells, and the lines written
    with [console.error]. *)
Record Store := {
  state : AppState;
  loading : bool;
  console : list string
}.

Definition setState (st : AppState) (s : Store) : Store :=
  {| state := st; loading := loading s; console := console s |}.

Definition setLoading (b : bool) (s : Store) : Store :=
  {| state := state s; loading := b; console := console s |}.

Definition consoleError (line : string) (s : Store) : Store :=
  {| state := state s; loading := loading s; console := console s ++ [line] |}.

(** A computation that returns or throws an [Error] with a message. *)
Inductive Completion (A : Type) :=
| Normal (a : A)
| Throw (msg : string).
Arguments Normal {A} _.
Arguments Throw {A} _.

Definition bind {A B} (c : Completion A) (k : A -> Completion B)
  : Completion B :=
  match c with
  | Normal a => k a
  | Throw msg => Throw msg
  end.

Notation "x <- c ;; k" := (bind c (fun x => k))
  (at level 61, c at next level, right associativity).

(** [res.data || []]. *)
Definition rowsOf (res : Response (list Row)) : list Row :=
  match data res with Some rows => rows | None => [] end.

(** [checkError(res, name)]: throws when there is an error whose code is
    not PGRST116, and gives [res.data || []] otherwise. *)
Definition checkError (res : Response (list Row)) (name : string)
  : Completion (list Row) :=
  match error res with
  | Some err =>
      if negb (code err =? "PGRST116")
      then Throw ("Failed to fetch " ++ name ++ ": " ++ message err)
      else Normal (rowsOf res)
  | None => Normal (rowsOf res)
  end.

(** The object literal handed to [setState]: its properties are evaluated
    in order, so the first failing [checkError] throws before any state is
    set.  The SiteSettings result is not passed to [checkError]:
    [siteSettings.data || { showParticipantTeams: false }]. *)
Definition loadedState (r : Reads) : Completion AppState :=
  u <- checkError (usersRead r) "profiles" ;;
  e <- checkError (eventsRead r) "events" ;;
  t <- checkError (teamsRead r) "teams" ;;
  p <- checkError (playersRead r) "players" ;;
  pt <- checkError (participantTeamsRead r) "participant_teams" ;;
  rr <- checkError (replacementRequestsRead r) "replacement_requests" ;;
  an <- checkError (announcementsRead r) "announcements" ;;
  cm <- checkError (chatMessagesRead r) "chat_messages" ;;
  ch <- checkError (cnflHistoryRead r) "cnfl_history" ;;
  Normal {| users := u; events := e; teams := t; players := p;
            participantTeams := pt; replacementRequests := rr;
            announcements := an; chatMessages := cm; cnflHistory := ch;
            siteSettings := match data (siteSettingsRead r) with
                            | Some row => row
                            | None => defaultSiteSettings
                            end |}.

(** [fetchData] of the provider that queries the gateway itself:
    [try { setLoading(true); ...; setState({...}) } catch (error)
    { console.error(...) } finally { setLoading(false) }]. *)
Definition fetchData (r : Reads) (s : Store) : Store :=
  let s1 := setLoading true s in
  let s2 := match loadedState r with
            | Normal st => setState st s1
            | Throw msg =>
                consoleError ("Error fetching initial data: Error: " ++ msg) s1
            end in
  setLoading false s2.

(** [fetchData] of the provider that reads through [api.getInitialData()],
    a function of ['../supabase/api'] that is not among the sources: its
    outcome, a snapshot or a thrown error, is the argument. *)
Definition fetchDataViaApi (getInitialData : Completion AppState) (s : Store)
  : Store :=
  let s1 := setLoading true s in
  let s2 := match getInitialData with
            | Normal st => setState st s1
            | Throw msg =>
                consoleError ("Error fetching initial data: Error: " ++ msg) s1
            end in
  setLoading false s2.

(** The nine list reads, as [checkError] sees them. *)
Definition listReads (r : Reads) : list (Response (list Row)) :=
  [usersRead r; eventsRead r; teamsRead r; playersRead r;
   participantTeamsRead r; replacementRequestsRead r; announcementsRead r;
   chatMessagesRead r; cnflHistoryRead r].

(** A read carries an error. *)
Definition failed {A} (res : Response A) : bool :=
  match error res with Some _ => true | None => false end.

(** A read carries an error whose code is not PGRST116. *)
Definition fatal {A} (res : Response A) : bool :=
  match error res with
  | Some err => negb (code err =? "PGRST116")
  | None => false
  end.

(** Reads and a store for the scenarios: the gateway answers the profiles
    read and the settings read with the error PGRST116 and no data, the
    players read with the single player [p1], every other read with no
    row. *)
Definition noRow : PostgrestError :=
  {| code := "PGRST116";
     message := "JSON object requested, multiple (or no) rows returned" |}.

Definition denied : PostgrestError :=
  {| code := "42501"; message := "permission denied for table players" |}.

Definition rowsRead (rows : list Row) : Response (list Row) :=
  {| data := Some rows; error := None |}.

Definition noRowReads : Reads :=
  {| usersRead := {| data := None; error := Some noRow |};
     eventsRead := rowsRead [];
     teamsRead := rowsRead [];
     playersRead := rowsRead [p1];
     participantTeamsRead := rowsRead [];
     replacementRequestsRead := rowsRead [];
     announcementsRead := rowsRead [];
     chatMessagesRead := rowsRead [];
     cnflHistoryRead := rowsRead [];
     siteSettingsRead := {| data := None; error := Some noRow |} |}.

Definition deniedReads : Reads :=
  {| usersRead := rowsRead [];
     eventsRead := rowsRead [];
     teamsRead := rowsRead [];
     playersRead := {| data := None; error := Some denied |};
     participantTeamsRead := rowsRead [];
     replacementRequestsRead := rowsRead [];
     announcementsRead := rowsRead [];
     chatMessagesRead := rowsRead [];
     cnflHistoryRead := rowsRead [];
     siteSettingsRead := {| data := None; error := Some noRow |} |}.

(** The provider as it is mounted. *)
Definition mounted : Store :=
  {| state := INITIAL_STATE; loading := true; console := [] |}.

End Data.

(* ===================================================================== *)
(** ** AuthContext: register and logout *)
(* ===================================================================== *)

Module Auth.

Inductive UserRole := ADMIN | PARTICIPANT.

(** The application user; also the shape of the row inserted into
    [profiles]. *)
Record User := {
  id : string;
  email : string;
  fullName : string;
  fbLink : string;
  role : UserRole
}.

(** An object with a message: the gateway's [AuthError] and
    [PostgrestError], of which only the message is read, and the
    [{ message }] that the operations return. *)
Record ErrorMessage := { message : string }.

(** [supabase.auth.signUp] resolves to [{ data: { user }, error }]; [user]
    is the id of the created identity. *)
Record SignUpResponse := {
  dataUser : option string;
  signUpError : option ErrorMessage
}.

(** The gateway as the session operations see it.  Its calls resolve to a
    value with an [error] field and do not reject. *)
Record Gateway := {
  authSignUp : string -> string -> SignUpResponse;
  profilesInsert : User -> option ErrorMessage;
  authSignOut : option ErrorMessage
}.

(** The requests sent to the gateway. *)
Inductive Request :=
| SignUp (email password : string)
| InsertProfile (row : User)
| SignOut.

(** The provider's [useState] cells, the requests issued so far and the
    console. *)
Record World := {
  user : option User;
  loading : bool;
  requests : list Request;
  console : list string
}.

(** Asynchronous functions of the provider: state passing over [World]. *)
Definition Async (A : Type) := World -> A * World.

Definition ret {A} (a : A) : Async A := fun w => (a, w).

Definition bind {A B} (c : Async A) (k : A -> Async B) : Async B :=
  fun w => let (a, w') := c w in k a w'.

Notation "x <- c ;; k" := (bind c (fun x => k))
  (at level 61, c at next level, right associativity).
Notation "c ;;; k" := (bind c (fun _ => k))
  (at level 61, right associativity).

Definition send (r : Request) : Async unit :=
  fun w => (tt, {| user := user w; loading := loading w;
                   requests := requests w ++ [r]; console := console w |}).

Definition setUser (u : option User) : Async unit :=
  fun w => (tt, {| user := u; loading := loading w;
                   requests := requests w; console := console w |}).

Definition consoleError (line : string) : Async unit :=
  fun w => (tt, {| user := user w; loading := loading w;
                   requests := requests w; console := console w ++ [line] |}).

(** The message of the error returned when the profile insert fails. *)
Definition PROFILE_FAILED : string :=
  "Registration succeeded, but failed to create user profile.".

Section Provider.
Variable supabase : Gateway.

(** [await supabase.auth.signUp({ email, password })]. *)
Definition signUp (email password : string) : Async SignUpResponse :=
  send (SignUp email password) ;;; ret (authSignUp supabase email password).

(** [await supabase.from('profiles').insert(row)]. *)
Definition insertProfile (row : User) : Async (option ErrorMessage) :=
  send (InsertProfile row) ;;; ret (profilesInsert supabase row).

(** [await supabase.auth.signOut()]. *)
Definition signOut : Async (option ErrorMessage) :=
  send SignOut ;;; ret (authSignOut supabase).

(** [register]; the result is the [error] of the returned object, an
    [{ message }] or [null]. *)
Definition register (fullName email fbLink password : string)
  : Async (option ErrorMessage) :=
  res <- signUp email password ;;
  match signUpError res with
  | Some signUpErr => ret (Some {| message := message signUpErr |})
  | None =>
      match dataUser res with
      | Some uid =>
          profileError <- insertProfile
            {| id := uid; fullName := fullName; email := email;
               fbLink := fbLink; role := PARTICIPANT |} ;;
          match profileError with
          | Some err =>
              consoleError ("Error creating profile: " ++ message err) ;;;
              ret (Some {| message := PROFILE_FAILED |})
          | None => ret None
          end
      | None => ret None
      end
  end.

(** [logout]: [await supabase.auth.signOut(); setUser(null)]; the other
    revision awaits [api.signOut()] in its place.  The value the call
    resolves to is not read. *)
Definition logout : Async unit :=
  signOut ;;; setUser None.
End Provider.

(** The revision of the provider that goes through ['../supabase/api'],
    which is not among the sources: [api.signUp] either resolves or throws
    an error with a message, and [register] turns the throw into a result. *)
Definition registerViaApi (apiSignUp : option ErrorMessage)
  : Async (option ErrorMessage) :=
  match apiSignUp with
  | None => ret None
  | Some err => ret (Some {| message := message err |})
  end.

(** The test by which a caller recognizes the result of a registration
    whose credentials exist and whose profile does not. *)
Definition profileFailed (result : option ErrorMessage) : bool :=
  match result with
  | Some err => message err =? PROFILE_FAILED
  | None => false
  end.

(** Gateways and a world for the scenarios. *)
Definition taken : ErrorMessage := {| message := "User already registered" |}.
Definition unreachable : ErrorMessage := {| message := "Failed to fetch" |}.

Definition rejecting : Gateway :=
  {| authSignUp := fun _ _ => {| dataUser := None; signUpError := Some taken |};
     profilesInsert := fun _ => None;
     authSignOut := Some unreachable |}.

Definition halfway : Gateway :=
  {| authSignUp := fun _ _ =>
       {| dataUser := Some "u1"; signUpError := None |};
     profilesInsert := fun _ => Some unreachable;
     authSignOut := None |}.

Definition accepting : Gateway :=
  {| authSignUp := fun _ _ =>
       {| dataUser := Some "u1"; signUpError := None |};
     profilesInsert := fun _ => None;
     authSignOut := None |}.

Definition ada : User :=
  {| id := "u1"; email := "ada@cnfl.com"; fullName := "Ada";
     fbLink := "https://facebook.com/ada"; role := PARTICIPANT |}.

Definition signedIn : World :=
  {| user := Some ada; loading := false; requests := []; console := [] |}.

Definition signedOut : World :=
  {| user := None; loading := false; requests := []; console := [] |}.

End Auth.

(* ===================================================================== *)
(** ** The change stream as a whole *)
(* ===================================================================== *)

Module Stream.
Import Data.

(** What an event writes: one of the nine collections, or the settings. *)
Inductive Slot :=
| ListSlot (stateKey : StateKey)
| SettingsSlot.

(** The slot [handleDbChange] selects for a payload: the [site_settings]
    test comes first, then the lookup in [tableKeyMap]. *)
Definition slotOf (payload : Payload) : option Slot :=
  if table payload =? "site_settings" then Some SettingsSlot
  else option_map ListSlot (tableKeyMap (table payload)).

(** The event replaces the settings. *)
Definition writesSettings (payload : Payload) : bool :=
  (table payload =? "site_settings")
  && ((eventType payload =? "UPDATE") || (eventType payload =? "INSERT")).

(** The last event of a sequence that replaces the settings. *)
Definition finalSettings (payloads : list Payload) : option Payload :=
  find writesSettings (rev payloads).

(** The nine list reads of the initial load with the names [checkError] is
    given for them, in the order of the object literal. *)
Definition batch (r : Reads) : list (string * Response (list Row)) :=
  [("profiles", usersRead r); ("events", eventsRead r);
   ("teams", teamsRead r); ("players", playersRead r);
   ("participant_teams", participantTeamsRead r);
   ("replacement_requests", replacementRequestsRead r);
   ("announcements", announcementsRead r);
   ("chat_messages", chatMessagesRead r);
   ("cnfl_history", cnflHistoryRead r)].

(** The message of the first [checkError] of a batch that throws. *)
Fixpoint firstThrow (reads : list (string * Response (list Row)))
  : option string :=
  match reads with
  | [] => None
  | (name, res) :: rest =>
      match checkError res name with
      | Throw msg => Some msg
      | Normal _ => firstThrow rest
      end
  end.

(** Two chat messages sent at the same instant, and an edit of the
    second. *)
Definition m1 : Row := row "m1" "2024-01-01T00:00:00Z" "" [].
Definition m2 : Row := row "m2" "2024-01-01T00:00:00Z" "" [].
Definition m2Edited : Row := row "m2" "2024-06-01T00:00:00Z" "" [].

Definition twoMessages : AppState :=
  setKey KChatMessages [m1; m2] INITIAL_STATE.

(** A collation in the manner of the host's [localeCompare], which orders
    letters alphabetically before it looks at their case: the strings are
    compared character by character with their letters in lower case. *)
Definition lowerChar (c : ascii) : ascii :=
  let n := nat_of_ascii c in
  if (65 <=? n)%nat && (n <=? 90)%nat then ascii_of_nat (n + 32) else c.

Fixpoint lower (s : string) : string :=
  match s with
  | EmptyString => EmptyString
  | String c rest => String (lowerChar c) (lower rest)
  end.

Definition caseBlindCompare (a b : string) : Z := lexCompare (lower a) (lower b).

(** Two seasons whose numbers differ in case, the history that holds the
    second, and an announcement whose timestamp is no date. *)
Definition season1 : Row := row "h1" "" "s1" [].
Definition season2 : Row := row "h2" "" "S2" [].

Definition oneSeason : AppState := setKey KCnflHistory [season2] INITIAL_STATE.

Definition undated : Row := row "n" "soon" "" [].

End Stream.

(* ===================================================================== *)
(** ** AuthContext: the session state machine *)
(* ===================================================================== *)

Module Session.

(** [session.user], of which the provider reads [id] and [email]. *)
Record SupabaseUser := { userId : string; userEmail : string }.

(** A row of [profiles], of which the provider reads these three
    columns. *)
Record Profile := {
  profileFullName : string;
  profileFbLink : string;
  profileRole : Auth.UserRole
}.

(** [{ data: profile, error }] of the profile query. *)
Record ProfileResponse := {
  profileData : option Profile;
  profileError : option Auth.ErrorMessage
}.

(** The gateway client as the provider that imports ['../supabase'] uses
    it.  A session is read only for being there and for its [user]. *)
Record Client := {
  authGetSession : option SupabaseUser;
  profilesSelect : string -> ProfileResponse;
  authSignInWithPassword : string -> string -> option Auth.ErrorMessage;
  authUpdateUser : string -> option Auth.ErrorMessage
}.

(** ['../supabase/api'], which the other provider imports and which is not
    among the sources: what each of its functions resolves to, or the
    message of what it throws. *)
Record Api := {
  apiGetSession : Data.Completion (option SupabaseUser);
  apiGetProfile : SupabaseUser -> Data.Completion (option Profile);
  apiSignIn : string -> string -> option Auth.ErrorMessage;
  apiUpdateUserPassword : string -> option Auth.ErrorMessage
}.

(** The calls a provider makes. *)
Inductive Call :=
| GetSession
| SelectProfile (id : string)
| GetProfile (supabaseUser : SupabaseUser)
| SignIn (email password : string)
| UpdateUser (password : string).

(** The two [useState] cells, the calls made so far and the console. *)
Record Provider := {
  user : option Auth.User;
  loading : bool;
  calls : list Call;
  console : list string
}.

Definition M (A : Type) := Provider -> A * Provider.

Definition ret {A} (a : A) : M A := fun w => (a, w).

Definition bind {A B} (c : M A) (k : A -> M B) : M B :=
  fun w => let (a, w') := c w in k a w'.

Notation "x <- c ;; k" := (bind c (fun x => k))
  (at level 61, c at next level, right associativity).
Notation "c ;;; k" := (bind c (fun _ => k))
  (at level 61, right associativity).

Definition call (c : Call) : M unit :=
  fun w => (tt, {| user := user w; loading := loading w;
                   calls := calls w ++ [c]; console := console w |}).

Definition setUser (u : option Auth.User) : M unit :=
  fun w => (tt, {| user := u; loading := loading w;
                   calls := calls w; console := console w |}).

Definition setLoading (b : bool) : M unit :=
  fun w => (tt, {| user := user w; loading := b;
                   calls := calls w; console := console w |}).

Definition consoleError (line : string) : M unit :=
  fun w => (tt, {| user := user w; loading := loading w;
                   calls := calls w; console := console w ++ [line] |}).

(** The object both providers hand to [setUser] for a session user with a
    profile. *)
Definition userOf (supabaseUser : SupabaseUser) (profile : Profile)
  : Auth.User :=
  {| Auth.id := userId supabaseUser;
     Auth.email := userEmail supabaseUser;
     Auth.fullName := profileFullName profile;
     Auth.fbLink := profileFbLink profile;
     Auth.role := profileRole profile |}.

(** [{ error: error ? { message: error.message } : null }]. *)
Definition relay (error : option Auth.ErrorMessage)
  : option Auth.ErrorMessage :=
  match error with
  | Some err => Some {| Auth.message := Auth.message err |}
  | None => None
  end.

(** The notification kinds after which the listener clears [loading]. *)
Definition settles (event : string) : bool :=
  (event =? "SIGNED_IN") || (event =? "SIGNED_OUT")
  || (event =? "USER_UPDATED").

Definition settlesViaApi (event : string) : bool :=
  (event =? "INITIAL_SESSION") || (event =? "SIGNED_IN")
  || (event =? "SIGNED_OUT") || (event =? "USER_UPDATED").

Section Direct.
Variable supabase : Client.

(** [updateUserProfile] of the provider that queries [profiles] itself. *)
Definition updateUserProfile (supabaseUser : SupabaseUser) : M unit :=
  call (SelectProfile (userId supabaseUser)) ;;;
  let res := profilesSelect supabase (userId supabaseUser) in
  match profileData res with
  | Some profile => setUser (Some (userOf supabaseUser profile))
  | None =>
      match profileError res with
      | Some err =>
          consoleError ("Error fetching profile: " ++ Auth.message err) ;;;
          setUser None
      | None => ret tt
      end
  end.

(** [getInitialUser]. *)
Definition getInitialUser : M unit :=
  call GetSession ;;;
  match authGetSession supabase with
  | Some sessionUser => updateUserProfile sessionUser
  | None => ret tt
  end ;;;
  setLoading false.

(** The callback given to [supabase.auth.onAuthStateChange]. *)
Definition onAuthStateChange (event : string)
  (session : option SupabaseUser) : M unit :=
  match session with
  | Some sessionUser => updateUserProfile sessionUser
  | None => setUser None
  end ;;;
  if settles event then setLoading false else ret tt.

(** [login]. *)
Definition login (email password : string) : M (option Auth.ErrorMessage) :=
  call (SignIn email password) ;;;
  ret (relay (authSignInWithPassword supabase email password)).

(** [updatePassword]; [!password] holds of the empty string only. *)
Definition updatePassword (password : string)
  : M (option Auth.ErrorMessage) :=
  if password =? "" then
    ret (Some {| Auth.message := "Password cannot be empty." |})
  else
    call (UpdateUser password) ;;;
    ret (relay (authUpdateUser supabase password)).
End Direct.

Section ViaApi.
Variable api : Api.

(** [updateUserProfile] of the provider that goes through the api module:
    [try { ... } catch (error) { console.error(...); setUser(null) }]. *)
Definition updateUserProfileViaApi (supabaseUser : option SupabaseUser)
  : M unit :=
  match supabaseUser with
  | None => setUser None
  | Some sessionUser =>
      call (GetProfile sessionUser) ;;;
      match apiGetProfile api sessionUser with
      | Data.Normal (Some profile) =>
          setUser (Some (userOf sessionUser profile))
      | Data.Normal None => setUser None
      | Data.Throw msg =>
          consoleError ("Error fetching user profile: Error: " ++ msg) ;;;
          setUser None
      end
  end.

(** [initializeSession]:
    [try { ... } catch (error) { console.error(...) } finally
    { setLoading(false) }]. *)
Definition initializeSession : M unit :=
  call GetSession ;;;
  match apiGetSession api with
  | Data.Normal session => updateUserProfileViaApi session
  | Data.Throw msg =>
      consoleError ("Error initializing session: Error: " ++ msg)
  end ;;;
  setLoading false.

(** The callback given to [api.onAuthStateChange]. *)
Definition onAuthStateChangeViaApi (event : string)
  (session : option SupabaseUser) : M unit :=
  updateUserProfileViaApi session ;;;
  if settlesViaApi event then setLoading false else ret tt.
End ViaApi.

(** *** Mock mode *)

(** [email.includes('@')]. *)
Fixpoint includesAt (s : string) : bool :=
  match s with
  | EmptyString => false
  | String c rest => (c =? "@")%char || includesAt rest
  end.

Section Mock.
(** [MOCK_DATA.users.find(u => u.role === UserRole.ADMIN)] of
    ['./mockData'], which is not among the sources; and [Date.now()] as it
    is printed into the id. *)
Variable admin : option Auth.User.
Variable now : string.

(** [mockLogin]. *)
Definition mockLogin (email password : string)
  : M (option Auth.ErrorMessage) :=
  setLoading true ;;;
  if match admin with
     | Some a => (email =? Auth.email a) && (password =? "password")
     | None => false
     end
  then
    setUser admin ;;; setLoading false ;;; ret None
  else if includesAt email && negb (password =? "") then
    setUser (Some {| Auth.id := "mock-participant-" ++ now;
                     Auth.fullName := "Mock Participant";
                     Auth.email := email;
                     Auth.role := Auth.PARTICIPANT;
                     Auth.fbLink := "https://facebook.com/participant" |}) ;;;
    setLoading false ;;; ret None
  else
    setLoading false ;;;
    ret (Some {| Auth.message :=
      "Invalid credentials. Use admin@cnfl.com / password, or any other email/password for a participant." |}).
End Mock.

(** A client, an api and providers for the scenarios. *)
Definition adaSession : SupabaseUser :=
  {| userId := "u1"; userEmail := "ada@cnfl.com" |}.

Definition adaProfile : Profile :=
  {| profileFullName := "Ada";
     profileFbLink := "https://facebook.com/ada";
     profileRole := Auth.PARTICIPANT |}.

Definition online : Client :=
  {| authGetSession := Some adaSession;
     profilesSelect := fun _ =>
       {| profileData := Some adaProfile; profileError := None |};
     authSignInWithPassword := fun _ _ => None;
     authUpdateUser := fun _ => None |}.

Definition failingApi : Api :=
  {| apiGetSession := Data.Throw "Failed to fetch";
     apiGetProfile := fun _ => Data.Throw "Failed to fetch";
     apiSignIn := fun _ _ => None;
     apiUpdateUserPassword := fun _ => None |}.

Definition workingApi : Api :=
  {| apiGetSession := Data.Normal (Some adaSession);
     apiGetProfile := fun _ => Data.Normal (Some adaProfile);
     apiSignIn := fun _ _ => None;
     apiUpdateUserPassword := fun _ => None |}.

Definition starting : Provider :=
  {| user := None; loading := true; calls := []; console := [] |}.

Definition mockAdmin : Auth.User :=
  {| Auth.id := "admin"; Auth.email := "admin@cnfl.com";
     Auth.fullName := "Admin"; Auth.fbLink := "";
     Auth.role := Auth.ADMIN |}.

End Session.

(* ===================================================================== *)
(** ** DataContext: the write actions *)
(* ===================================================================== *)

Module Actions.
Import Data.

(** The operation of a query: [insert], [update], [delete], or [upsert]
    with its [onConflict] column. *)
Inductive Verb :=
| Insert
| Update
| Delete
| Upsert (onConflict : string).

(** What a query sends, and what a response carries: a row, an array of
    rows, the patch [{ points }], or nothing. *)
Inductive Body :=
| OneRow (r : Row)
| ManyRows (rows : list Row)
| PointsPatch (points : list Z)
| NoBody.

(** [supabase.from(t).<verb>(body)[.eq('id', i)][.select()][.single()]]. *)
Record Query := {
  queryTable : string;
  verb : Verb;
  body : Body;
  eqId : option string;
  selects : bool;
  single : bool
}.

(** What the caller of an action gets: a value, [null] being [None], or
    [undefined] from an action without a [return]. *)
Inductive Result :=
| Value (data : option Body)
| Undefined.

(** The queries sent, and what was written with [console.error],
    [console.warn] and [alert]. *)
Record Effects := {
  queries : list Query;
  errors : list string;
  warnings : list string;
  alerts : list string
}.

Definition M (A : Type) := Effects -> A * Effects.

Definition ret {A} (a : A) : M A := fun w => (a, w).

Definition bind {A B} (c : M A) (k : A -> M B) : M B :=
  fun w => let (a, w') := c w in k a w'.

Notation "x <-- c ;; k" := (bind c (fun x => k))
  (at level 61, c at next level, right associativity).
Notation "c ;;; k" := (bind c (fun _ => k))
  (at level 61, right associativity).

Definition send (q : Query) : M unit :=
  fun w => (tt, {| queries := queries w ++ [q]; errors := errors w;
                   warnings := warnings w; alerts := alerts w |}).

Definition consoleError (line : string) : M unit :=
  fun w => (tt, {| queries := queries w; errors := errors w ++ [line];
                   warnings := warnings w; alerts := alerts w |}).

Definition consoleWarn (line : string) : M unit :=
  fun w => (tt, {| queries := queries w; errors := errors w;
                   warnings := warnings w ++ [line]; alerts := alerts w |}).

Definition alert (line : string) : M unit :=
  fun w => (tt, {| queries := queries w; errors := errors w;
                   warnings := warnings w; alerts := alerts w ++ [line] |}).

(** [handleSupabaseError(error, context)]. *)
Definition handleSupabaseError (error : option PostgrestError)
  (context : string) : M (option PostgrestError) :=
  match error with
  | Some err =>
      consoleError ("Supabase error in " ++ context ++ ": " ++ message err)
      ;;; ret error
  | None => ret error
  end.

(** [{ ...p, points: [] }]. *)
Definition withoutPoints (p : Row) : Row :=
  {| id := id p; timestamp := timestamp p; seasonNumber := seasonNumber p;
     points := []; showParticipantTeams := showParticipantTeams p;
     columns := columns p |}.

(** The members of [Actions], each with its argument. *)
Inductive Action :=
| createEvent (event : Row)
| updateEvent (event : Row)
| deleteEvent (i : string)
| addTeam (team : Row)
| updateTeam (team : Row)
| deleteTeam (i : string)
| addPlayer (player : Row)
| addBulkPlayers (players : list Row)
| updatePlayer (player : Row)
| deletePlayer (i : string)
| updatePlayerPoints (playerId : string) (points : list Z)
| updateReplacementRequest (req : Row)
| addReplacementRequest (req : Row)
| addAnnouncement (announcement : Row)
| deleteAnnouncement (i : string)
| addChatMessage (msg : Row)
| updateSiteSettings (settings : Row)
| addHistory (item : Row)
| updateHistory (item : Row)
| deleteHistory (i : string)
| addParticipantTeam (team : Row)
| updateParticipantTeam (team : Row)
| updateUser (user : Row).

(** The key of an action in the [actions] object. *)
Definition nameOf (a : Action) : string :=
  match a with
  | createEvent _ => "createEvent"
  | updateEvent _ => "updateEvent"
  | deleteEvent _ => "deleteEvent"
  | addTeam _ => "addTeam"
  | updateTeam _ => "updateTeam"
  | deleteTeam _ => "deleteTeam"
  | addPlayer _ => "addPlayer"
  | addBulkPlayers _ => "addBulkPlayers"
  | updatePlayer _ => "updatePlayer"
  | deletePlayer _ => "deletePlayer"
  | updatePlayerPoints _ _ => "updatePlayerPoints"
  | updateReplacementRequest _ => "updateReplacementRequest"
  | addReplacementRequest _ => "addReplacementRequest"
  | addAnnouncement _ => "addAnnouncement"
  | deleteAnnouncement _ => "deleteAnnouncement"
  | addChatMessage _ => "addChatMessage"
  | updateSiteSettings _ => "updateSiteSettings"
  | addHistory _ => "addHistory"
  | updateHistory _ => "updateHistory"
  | deleteHistory _ => "deleteHistory"
  | addParticipantTeam _ => "addParticipantTeam"
  | updateParticipantTeam _ => "updateParticipantTeam"
  | updateUser _ => "updateUser"
  end.

(** The four shapes of query the actions build. *)
Definition insertOne (t : string) (r : Row) : Query :=
  {| queryTable := t; verb := Insert; body := OneRow r; eqId := None;
     selects := true; single := true |}.

Definition updateOne (t : string) (r : Row) : Query :=
  {| queryTable := t; verb := Update; body := OneRow r; eqId := Some (id r);
     selects := true; single := true |}.

Definition updateQuietly (t : string) (b : Body) (i : string) : Query :=
  {| queryTable := t; verb := Update; body := b; eqId := Some i;
     selects := false; single := false |}.

Definition deleteOne (t : string) (i : string) : Query :=
  {| queryTable := t; verb := Delete; body := NoBody; eqId := Some i;
     selects := false; single := false |}.

(** The query each action sends. *)
Definition queryOf (a : Action) : Query :=
  match a with
  | createEvent event => insertOne "events" event
  | updateEvent event => updateOne "events" event
  | deleteEvent i => deleteOne "events" i
  | addTeam team => insertOne "teams" team
  | updateTeam team => updateOne "teams" team
  | deleteTeam i => deleteOne "teams" i
  | addPlayer player => insertOne "players" player
  | addBulkPlayers players =>
      {| queryTable := "players"; verb := Insert;
         body := ManyRows (map withoutPoints players); eqId := None;
         selects := true; single := false |}
  | updatePlayer player => updateOne "players" player
  | deletePlayer i => deleteOne "players" i
  | updatePlayerPoints playerId pts =>
      updateQuietly "players" (PointsPatch pts) playerId
  | updateReplacementRequest req =>
      updateQuietly "replacement_requests" (OneRow req) (id req)
  | addReplacementRequest req => insertOne "replacement_requests" req
  | addAnnouncement announcement => insertOne "announcements" announcement
  | deleteAnnouncement i => deleteOne "announcements" i
  | addChatMessage msg => insertOne "chat_messages" msg
  | updateSiteSettings settings =>
      {| queryTable := "site_settings"; verb := Upsert "id";
         body := OneRow settings; eqId := None;
         selects := true; single := true |}
  | addHistory item => insertOne "cnfl_history" item
  | updateHistory item => updateOne "cnfl_history" item
  | deleteHistory i => deleteOne "cnfl_history" i
  | addParticipantTeam team => insertOne "participant_teams" team
  | updateParticipantTeam team => updateOne "participant_teams" team
  | updateUser user => updateOne "profiles" user
  end.

(** The actions that end in
    [return handleSupabaseError(error, name) ? null : data]; the others
    call [handleSupabaseError] and return nothing. *)
Definition returnsData (a : Action) : bool :=
  match a with
  | deleteEvent _ | deleteTeam _ | deletePlayer _ | updatePlayerPoints _ _
  | updateReplacementRequest _ | deleteAnnouncement _ | deleteHistory _ =>
      false
  | _ => true
  end.

Section Provider.
(** What the gateway resolves a query to. *)
Variable supabase : Query -> Response Body.

(** An action of the provider that is connected to the gateway. *)
Definition perform (a : Action) : M Result :=
  send (queryOf a) ;;;
  let res := supabase (queryOf a) in
  err <-- handleSupabaseError (error res) (nameOf a) ;;
  if returnsData a then
    ret (Value (match err with Some _ => None | None => data res end))
  else ret Undefined.

(** The name of an action between quotation marks. *)
Definition quoted (name : string) : string :=
  String "034"%char (name ++ String "034"%char EmptyString).

(** [mockAction(name)]. *)
Definition mockAction (name : string) : M Result :=
  consoleWarn ("Action " ++ quoted name ++ " is disabled in mock mode.") ;;;
  alert ("Action " ++ quoted name
         ++ " is not available in mock mode. Configure Supabase credentials to enable backend interaction.")
  ;;; ret (Value None).

(** The [actions] object, by [isUsingMock]. *)
Definition actions (isUsingMock : bool) (a : Action) : M Result :=
  if isUsingMock then mockAction (nameOf a) else perform a.
End Provider.

(** A gateway that refuses every query, and one that echoes what it is
    sent. *)
Definition refusing : Query -> Response Body :=
  fun _ => {| data := None; error := Some denied |}.

Definition echoing : Query -> Response Body :=
  fun q => {| data := Some (body q); error := None |}.

Definition quiet : Effects :=
  {| queries := []; errors := []; warnings := []; alerts := [] |}.

End Actions.

(* ===================================================================== *)
(** ** Facts about the built-ins *)
(* ===================================================================== *)

Module JsFacts.
Import Js.

Section Arrays.
Context {A : Type}.
Implicit Types (p : A -> bool) (items : list A).

Lemma some_false p items :
  some p items = false <-> (forall x, In x items -> p x = false).
Proof.
  unfold some. induction items as [|y rest IH]; simpl.
  - split; [intros _ x [] | reflexivity].
  - rewrite orb_false_iff, IH. split.
    + intros [Hy Hrest] x [<- | Hx]; auto.
    + intros H; split; [apply H; now left | intros x Hx; apply H; now right].
Qed.

Lemma some_true p items :
  some p items = true <-> (exists x, In x items /\ p x = true).
Proof. apply existsb_exists. Qed.

Lemma findIndex_None p items :
  findIndex p items = None <-> (forall x, In x items -> p x = false).
Proof.
  induction items as [|y rest IH]; simpl.
  - split; [intros _ x [] | reflexivity].
  - destruct (p y) eqn:Hy.
    + split; [discriminate |].
      intros H. rewrite (H y) in Hy by now left. discriminate.
    + destruct (findIndex p rest) eqn:Hrest; simpl.
      * split; [discriminate |].
        intros H. apply proj2 in IH. discriminate IH.
        intros x Hx. apply H. now right.
      * split; [| reflexivity].
        intros _ x [<- | Hx]; [assumption | now apply IH].
Qed.

(** The index found is the position of the first match, and assigning
    there replaces exactly that element. *)
Lemma findIndex_Some p items index :
  findIndex p items = Some index ->
  exists before x after,
    items = before ++ x :: after
    /\ length before = index
    /\ p x = true
    /\ (forall y, In y before -> p y = false)
    /\ (forall v, assign index v items = before ++ v :: after).
Proof.
  revert index. induction items as [|y rest IH]; simpl; intros index H.
  - discriminate.
  - destruct (p y) eqn:Hy.
    + injection H as <-. exists [], y, rest. simpl.
      repeat split; auto. intros z [].
    + destruct (findIndex p rest) as [i|] eqn:Hrest; simpl in H;
        [| discriminate].
      injection H as <-.
      destruct (IH i eq_refl) as (before & x & after & -> & Hlen & Hx & Hb & Ha).
      exists (y :: before), x, after. simpl.
      repeat split; auto.
      * intros z [<- | Hz]; auto.
      * intros v. now rewrite Ha.
Qed.

Lemma findIndex_first p (before after : list A) (x : A) :
  p x = true -> (forall y, In y before -> p y = false) ->
  findIndex p (before ++ x :: after) = Some (length before).
Proof.
  intros Hx. induction before as [|y rest IH]; simpl; intros Hb.
  - now rewrite Hx.
  - rewrite (Hb y) by now left. rewrite IH; [reflexivity |].
    intros z Hz. apply Hb. now right.
Qed.

Lemma assign_middle (before after : list A) (x v : A) :
  assign (length before) v (before ++ x :: after) = before ++ v :: after.
Proof. induction before as [|y rest IH]; simpl; [| rewrite IH]; reflexivity. Qed.

Lemma findIndex_lt p items index :
  findIndex p items = Some index -> (index < length items)%nat.
Proof.
  intros H. destruct (findIndex_Some _ _ _ H)
    as (before & x & after & -> & <- & _).
  rewrite length_app. simpl. lia.
Qed.

Lemma insert_perm (comparefn : A -> A -> number) x items :
  Permutation (insert comparefn x items) (x :: items).
Proof.
  induction items as [|y rest IH]; simpl.
  - reflexivity.
  - destruct (sortCompare (comparefn x y) <=? 0)%Z.
    + reflexivity.
    + rewrite IH. apply perm_swap.
Qed.

(** Sorting rearranges and neither adds nor loses an element. *)
Lemma sort_perm (comparefn : A -> A -> number) items :
  Permutation (sort comparefn items) items.
Proof.
  induction items as [|x rest IH]; simpl.
  - reflexivity.
  - rewrite insert_perm. now constructor.
Qed.

Section Ordered.
Variable comparefn : A -> A -> number.

Local Abbreviation notAfter := (notAfter comparefn).

(** The elements on which the comparator is consistent. *)
Variable dom : A -> Prop.
Hypothesis total :
  forall a b, dom a -> dom b -> notAfter a b \/ notAfter b a.
Hypothesis trans :
  forall a b c, dom a -> dom b -> dom c ->
    notAfter a b -> notAfter b c -> notAfter a c.

Lemma insert_sorted x items :
  dom x -> Forall dom items ->
  StronglySorted notAfter items ->
  StronglySorted notAfter (insert comparefn x items).
Proof.
  intros Hx Hdom Hs. induction Hs as [|y rest Hrest IH Hy]; simpl.
  - repeat constructor.
  - inversion Hdom as [|? ? Hdy Hdrest]; subst.
    destruct (Z.leb_spec (sortCompare (comparefn x y)) 0) as [Hle | Hgt].
    + constructor; [now constructor |].
      constructor; [exact Hle |].
      rewrite Forall_forall in *. intros z Hz.
      apply (trans x y z); auto.
    + constructor; [now apply IH |].
      assert (Hyx : notAfter y x).
      { destruct (total x y Hx Hdy) as [H | H]; [unfold notAfter in H; lia | exact H]. }
      rewrite Forall_forall in *. intros z Hz.
      apply (Permutation_in _ (insert_perm comparefn x rest)) in Hz.
      destruct Hz as [<- | Hz]; auto.
Qed.

(** On elements the comparator orders consistently, the result is
    sorted. *)
Lemma sort_sorted items :
  Forall dom items -> StronglySorted notAfter (sort comparefn items).
Proof.
  induction 1 as [|x rest Hx Hrest IH]; simpl.
  - constructor.
  - apply insert_sorted; auto.
    rewrite Forall_forall in *. intros z Hz. apply Hrest.
    now apply (Permutation_in _ (sort_perm comparefn rest)).
Qed.
End Ordered.

(** Sorting a sorted array leaves it as it is (the sort is stable). *)
Lemma sort_fixed (comparefn : A -> A -> number) items :
  StronglySorted (notAfter comparefn) items -> sort comparefn items = items.
Proof.
  induction 1 as [|x rest Hrest IH Hx]; simpl.
  - reflexivity.
  - rewrite IH. destruct rest as [|y rest']; simpl.
    + reflexivity.
    + inversion Hx as [|? ? Hxy _]; subst.
      unfold notAfter in Hxy.
      destruct (Z.leb_spec (sortCompare (comparefn x y)) 0); [reflexivity | lia].
Qed.


Lemma filter_all p items :
  (forall x, In x items -> p x = true) -> filter p items = items.
Proof.
  unfold filter. induction items as [|x rest IH]; simpl; intros H.
  - reflexivity.
  - rewrite (H x) by now left. f_equal. apply IH.
    intros z Hz. apply H. now right.
Qed.
End Arrays.

End JsFacts.

(* ===================================================================== *)
(** ** Reconciliation of change events *)
(* ===================================================================== *)

Module DataFacts.
Import Data.

Lemma StateKey_eqb_eq a b : StateKey_eqb a b = true <-> a = b.
Proof. destruct a, b; simpl; split; congruence. Qed.

Lemma getKey_setKey_same k items s : getKey k (setKey k items s) = items.
Proof. destruct k; reflexivity. Qed.

Lemma getKey_setKey_other k k' items s :
  k <> k' -> getKey k' (setKey k items s) = getKey k' s.
Proof. destruct k, k'; simpl; congruence. Qed.

Lemma siteSettings_setKey k items s :
  siteSettings (setKey k items s) = siteSettings s.
Proof. destruct k; reflexivity. Qed.

Lemma setKey_getKey k s : setKey k (getKey k s) s = s.
Proof. destruct s, k; reflexivity. Qed.

Lemma getKey_setSiteSettings k r s :
  getKey k (setSiteSettings r s) = getKey k s.
Proof. destruct k; reflexivity. Qed.

(** Which table names the map knows. *)
Lemma tableKeyMap_Some tbl k :
  tableKeyMap tbl = Some k ->
  In tbl recognizedTables /\ tbl <> "site_settings".
Proof.
  unfold tableKeyMap, recognizedTables.
  repeat match goal with
         | |- context [if ?a =? ?b then _ else _] =>
             destruct (String.eqb_spec a b) as [-> | ?];
             [intros _; split; [simpl; tauto | discriminate] |]
         end.
  discriminate.
Qed.

Lemma tableKeyMap_None tbl :
  tableKeyMap tbl = None <->
  ~ In tbl recognizedTables \/ tbl = "site_settings".
Proof.
  split.
  - unfold tableKeyMap.
    repeat match goal with
           | |- context [if ?a =? ?b then _ else _] =>
               destruct (String.eqb_spec a b) as [-> | ?]; [discriminate |]
           end.
    intros _. destruct (String.eqb_spec tbl "site_settings"); [now right |].
    left. simpl. intuition congruence.
  - intros H. destruct (tableKeyMap tbl) as [k|] eqn:E; [| reflexivity].
    apply tableKeyMap_Some in E. destruct E, H; contradiction.
Qed.

Section Facts.
Variable dateTime : string -> Js.number.
Variable localeCompare : string -> string -> Z.

Local Abbreviation keepSorted := (keepSorted dateTime localeCompare).
Local Abbreviation handleDbChange := (handleDbChange dateTime localeCompare).
Local Abbreviation applyAll := (applyAll dateTime localeCompare).

Lemma keepSorted_perm k items : Permutation (keepSorted k items) items.
Proof. destruct k; simpl; try reflexivity; apply JsFacts.sort_perm. Qed.

(** The collection an event is addressed to becomes the event applied to
    it, re-sorted. *)
Lemma handleDbChange_same payload s k :
  tableKeyMap (table payload) = Some k ->
  getKey k (handleDbChange payload s)
  = keepSorted k (applyEvent payload (getKey k s)).
Proof.
  intros Hk. unfold Data.handleDbChange.
  destruct (tableKeyMap_Some _ _ Hk) as [_ Hns].
  apply String.eqb_neq in Hns. rewrite Hns, Hk.
  apply getKey_setKey_same.
Qed.

(** Every other collection is left as it was. *)
Lemma handleDbChange_other payload s k :
  tableKeyMap (table payload) <> Some k ->
  getKey k (handleDbChange payload s) = getKey k s.
Proof.
  intros Hk. unfold Data.handleDbChange.
  destruct (table payload =? "site_settings").
  - destruct (_ || _); [apply getKey_setSiteSettings | reflexivity].
  - destruct (tableKeyMap (table payload)) as [k'|]; [| reflexivity].
    apply getKey_setKey_other. congruence.
Qed.

Lemma applyAll_snoc payloads payload s :
  applyAll (payloads ++ [payload]) s
  = handleDbChange payload (applyAll payloads s).
Proof. unfold Data.applyAll. now rewrite fold_left_app. Qed.

End Facts.

(** *** Ids under a single event *)



Lemma uniqueIds_perm xs ys : Permutation xs ys -> uniqueIds xs -> uniqueIds ys.
Proof.
  unfold uniqueIds. intros H. apply Permutation_NoDup. now apply Permutation_map.
Qed.




Lemma uniqueIds_filter p rows : uniqueIds rows -> uniqueIds (Js.filter p rows).
Proof.
  unfold uniqueIds, Js.filter. induction rows as [|r rest IH]; simpl; intros H.
  - constructor.
  - inversion H as [|? ? Hn Hrest]; subst.
    destruct (p r); simpl; [| now apply IH].
    constructor; [| now apply IH].
    intros Hin. apply Hn. apply in_map_iff in Hin.
    destruct Hin as (x & Hx & Hin). apply filter_In in Hin.
    apply in_map_iff. exists x. tauto.
Qed.

Lemma uniqueIds_push rows r :
  uniqueIds rows -> (forall x, In x rows -> (id x =? id r) = false) ->
  uniqueIds (Js.push rows r).
Proof.
  unfold uniqueIds, Js.push. intros Hu Hfresh. rewrite map_app. simpl.
  apply NoDup_app; [exact Hu | repeat constructor; intros [] | ].
  intros i Hin [<- | []]. apply in_map_iff in Hin.
  destruct Hin as (x & Hx & Hin). specialize (Hfresh x Hin).
  rewrite Hx, String.eqb_refl in Hfresh. discriminate.
Qed.

(** The ids of a collection after an UPDATE that found its row. *)
Lemma map_id_replace (before after : list Row) x v :
  id x = id v ->
  map id (before ++ v :: after) = map id (before ++ x :: after).
Proof. intros H. rewrite !map_app. simpl. now rewrite H. Qed.

(** The three kinds of row event. *)
Lemma eventType_cases payload :
  eventType payload = "INSERT" \/ eventType payload = "UPDATE"
  \/ eventType payload = "DELETE"
  \/ (eventType payload =? "INSERT") = false
     /\ (eventType payload =? "UPDATE") = false
     /\ (eventType payload =? "DELETE") = false.
Proof.
  destruct (String.eqb_spec (eventType payload) "INSERT"); [tauto |].
  destruct (String.eqb_spec (eventType payload) "UPDATE"); [tauto |].
  destruct (String.eqb_spec (eventType payload) "DELETE"); tauto.
Qed.

Lemma applyEvent_uniqueIds payload rows :
  uniqueIds rows -> uniqueIds (applyEvent payload rows).
Proof.
  intros Hu. unfold applyEvent, recordIdOf.
  destruct (eventType_cases payload) as [E | [E | [E | (E1 & E2 & E3)]]].
  - rewrite E. simpl.
    destruct (Js.some _ rows) eqn:Hs; simpl; [exact Hu |].
    apply uniqueIds_push; [exact Hu |]. now apply JsFacts.some_false.
  - rewrite E. simpl.
    destruct (Js.findIndex _ rows) as [index|] eqn:Hf.
    + destruct (JsFacts.findIndex_Some _ _ _ Hf)
        as (before & x & after & -> & _ & Hx & _ & Ha).
      rewrite Ha. unfold uniqueIds in *.
      rewrite (map_id_replace before after x); [exact Hu |].
      now apply String.eqb_eq.
    + apply uniqueIds_push; [exact Hu |]. now apply JsFacts.findIndex_None.
  - rewrite E. simpl. now apply uniqueIds_filter.
  - rewrite E1, E2, E3. exact Hu.
Qed.


(** *** The claims about identity *)

Lemma finalEvent_snoc k i payloads payload :
  finalEvent k i (payloads ++ [payload])
  = if concerns k i payload then Some payload else finalEvent k i payloads.
Proof. unfold finalEvent. now rewrite rev_app_distr. Qed.



(** *** The order of the three sorted collections *)

Lemma StronglySorted_weaken {A} (R R' : A -> A -> Prop) l :
  (forall a b, In a l -> In b l -> R a b -> R' a b) ->
  StronglySorted R l -> StronglySorted R' l.
Proof.
  intros Himp Hs. induction Hs as [|x rest Hrest IH Hx].
  - constructor.
  - constructor.
    + apply IH. intros a b Ha Hb. apply Himp; now right.
    + rewrite Forall_forall in *. intros z Hz.
      apply Himp; [now left | now right | now apply Hx].
Qed.

Lemma tableKeyMap_timestamped tbl k :
  tableKeyMap tbl = Some k ->
  k = KAnnouncements \/ k = KChatMessages ->
  tbl = "announcements" \/ tbl = "chat_messages".
Proof.
  unfold tableKeyMap.
  repeat match goal with
         | |- context [if ?a =? ?b then _ else _] =>
             destruct (String.eqb_spec a b) as [-> | ?];
             [intros [= <-] [? | ?]; try discriminate; tauto |]
         end.
  discriminate.
Qed.

(** Where the rows of a collection come from after an event. *)
Lemma applyEvent_In payload rows r :
  In r (applyEvent payload rows) ->
  In r rows
  \/ (r = new payload
      /\ (eventType payload = "INSERT" \/ eventType payload = "UPDATE")).
Proof.
  unfold applyEvent.
  destruct (eventType_cases payload) as [E | [E | [E | (E1 & E2 & E3)]]].
  - rewrite E. simpl. destruct (Js.some _ rows); simpl; [tauto |].
    unfold Js.push. rewrite in_app_iff. simpl. intuition.
  - rewrite E. simpl.
    destruct (Js.findIndex _ rows) as [index|] eqn:Hf.
    + destruct (JsFacts.findIndex_Some _ _ _ Hf)
        as (before & x & after & -> & _ & _ & _ & Ha).
      rewrite Ha, !in_app_iff. simpl. intuition.
    + unfold Js.push. rewrite in_app_iff. simpl. intuition.
  - rewrite E. simpl. unfold Js.filter. rewrite filter_In. tauto.
  - rewrite E1, E2, E3. tauto.
Qed.

Section Order.
Variable dateTime : string -> Js.number.
Variable localeCompare : string -> string -> Z.

Local Abbreviation timeOf := (timeOf dateTime).
Local Abbreviation timed := (timed dateTime).
Local Abbreviation timeLe := (timeLe dateTime).
Local Abbreviation timedFor := (timedFor dateTime).
Local Abbreviation timedEvent := (timedEvent dateTime).
Local Abbreviation timedState := (timedState dateTime).
Local Abbreviation inOrder := (inOrder dateTime localeCompare).
Local Abbreviation ordered := (ordered dateTime localeCompare).
Local Abbreviation keepSorted := (keepSorted dateTime localeCompare).
Local Abbreviation handleDbChange := (handleDbChange dateTime localeCompare).
Local Abbreviation applyAll := (applyAll dateTime localeCompare).

Lemma notAfter_desc a b :
  timeLe b a -> Js.notAfter (byTimestampDesc dateTime) a b.
Proof.
  unfold Data.timeLe, Js.notAfter, byTimestampDesc, Data.timeOf.
  destruct (dateTime (timestamp b)), (dateTime (timestamp a)); simpl;
    intros; lia || contradiction.
Qed.

Lemma desc_notAfter a b :
  timeOf a <> None -> timeOf b <> None ->
  Js.notAfter (byTimestampDesc dateTime) a b -> timeLe b a.
Proof.
  unfold Data.timeLe, Js.notAfter, byTimestampDesc, Data.timeOf.
  destruct (dateTime (timestamp b)), (dateTime (timestamp a)); simpl;
    intros; lia || congruence.
Qed.

Lemma notAfter_asc a b :
  timeLe a b -> Js.notAfter (byTimestampAsc dateTime) a b.
Proof.
  unfold Data.timeLe, Js.notAfter, byTimestampAsc, Data.timeOf.
  destruct (dateTime (timestamp b)), (dateTime (timestamp a)); simpl;
    intros; lia || contradiction.
Qed.

Lemma asc_notAfter a b :
  timeOf a <> None -> timeOf b <> None ->
  Js.notAfter (byTimestampAsc dateTime) a b -> timeLe a b.
Proof.
  unfold Data.timeLe, Js.notAfter, byTimestampAsc, Data.timeOf.
  destruct (dateTime (timestamp b)), (dateTime (timestamp a)); simpl;
    intros; lia || congruence.
Qed.

(** A collection in its order is a fixed point of the re-sort. *)
Lemma keepSorted_fixed k rows : inOrder k rows -> keepSorted k rows = rows.
Proof.
  destruct k; simpl; try reflexivity.
  - intros [_ Hs]. apply JsFacts.sort_fixed.
    revert Hs. apply StronglySorted_weaken.
    intros a b _ _. apply notAfter_desc.
  - intros [_ Hs]. apply JsFacts.sort_fixed.
    revert Hs. apply StronglySorted_weaken.
    intros a b _ _. apply notAfter_asc.
  - intros Hs. apply JsFacts.sort_fixed. exact Hs.
Qed.

Lemma timed_perm xs ys : Permutation xs ys -> timed xs -> timed ys.
Proof. unfold Data.timed. intros H. now apply Permutation_Forall. Qed.

Lemma inOrder_timedFor k rows : inOrder k rows -> timedFor k rows.
Proof. destruct k; simpl; tauto. Qed.

Lemma timedFor_perm k xs ys :
  Permutation xs ys -> timedFor k xs -> timedFor k ys.
Proof. destruct k; simpl; auto; apply timed_perm. Qed.

Lemma applyEvent_timedFor payload k rows :
  tableKeyMap (table payload) = Some k ->
  timedEvent payload -> timedFor k rows ->
  timedFor k (applyEvent payload rows).
Proof.
  intros Hk He Hrows.
  assert (Hgen : k = KAnnouncements \/ k = KChatMessages ->
                 timed rows -> timed (applyEvent payload rows)).
  { intros Hts Ht. unfold Data.timed in *. rewrite Forall_forall in *.
    intros r Hr. apply applyEvent_In in Hr. destruct Hr as [Hr | [-> Hkind]].
    - now apply Ht.
    - apply He; [| exact Hkind].
      now apply (tableKeyMap_timestamped _ k). }
  destruct k; simpl in *; auto.
Qed.

Section Consistent.
Hypothesis collation : consistent localeCompare.

Lemma season_total a b :
  Js.notAfter (bySeasonNumber localeCompare) a b
  \/ Js.notAfter (bySeasonNumber localeCompare) b a.
Proof.
  unfold Js.notAfter, bySeasonNumber. simpl.
  destruct collation as [Hanti _].
  specialize (Hanti (seasonNumber a) (seasonNumber b)). lia.
Qed.

Lemma season_trans a b c :
  Js.notAfter (bySeasonNumber localeCompare) a b ->
  Js.notAfter (bySeasonNumber localeCompare) b c ->
  Js.notAfter (bySeasonNumber localeCompare) a c.
Proof.
  unfold Js.notAfter, bySeasonNumber. simpl.
  destruct collation as [_ Htrans]. apply Htrans.
Qed.

(** The re-sort puts a collection in its order. *)
Lemma keepSorted_inOrder k rows :
  timedFor k rows -> inOrder k (keepSorted k rows).
Proof.
  destruct k; simpl; auto.
  - intros Ht. split.
    + apply (timed_perm rows); [| exact Ht].
      symmetry. apply JsFacts.sort_perm.
    + apply (StronglySorted_weaken
               (Js.notAfter (byTimestampDesc dateTime))).
      * intros a b Ha Hb. unfold Data.timed in Ht.
        rewrite Forall_forall in Ht.
        apply desc_notAfter; apply Ht;
          (eapply Permutation_in; [apply JsFacts.sort_perm | eassumption]).
      * apply (JsFacts.sort_sorted _ (fun r => timeOf r <> None));
          [| | exact Ht].
        -- intros a b Ha Hb.
           unfold Js.notAfter, byTimestampDesc, Data.timeOf in *.
           destruct (dateTime (timestamp a)), (dateTime (timestamp b));
             simpl; lia || congruence.
        -- intros a b c Ha Hb Hc.
           unfold Js.notAfter, byTimestampDesc, Data.timeOf in *.
           destruct (dateTime (timestamp a)), (dateTime (timestamp b)),
             (dateTime (timestamp c)); simpl; lia || congruence.
  - intros Ht. split.
    + apply (timed_perm rows); [| exact Ht].
      symmetry. apply JsFacts.sort_perm.
    + apply (StronglySorted_weaken
               (Js.notAfter (byTimestampAsc dateTime))).
      * intros a b Ha Hb. unfold Data.timed in Ht.
        rewrite Forall_forall in Ht.
        apply asc_notAfter; apply Ht;
          (eapply Permutation_in; [apply JsFacts.sort_perm | eassumption]).
      * apply (JsFacts.sort_sorted _ (fun r => timeOf r <> None));
          [| | exact Ht].
        -- intros a b Ha Hb.
           unfold Js.notAfter, byTimestampAsc, Data.timeOf in *.
           destruct (dateTime (timestamp a)), (dateTime (timestamp b));
             simpl; lia || congruence.
        -- intros a b c Ha Hb Hc.
           unfold Js.notAfter, byTimestampAsc, Data.timeOf in *.
           destruct (dateTime (timestamp a)), (dateTime (timestamp b)),
             (dateTime (timestamp c)); simpl; lia || congruence.
  - intros _. unfold seasonsAscending.
    change (StronglySorted (Js.notAfter (bySeasonNumber localeCompare))
              (Js.sort (bySeasonNumber localeCompare) rows)).
    apply (JsFacts.sort_sorted _ (fun _ => True)).
    + intros a b _ _. apply season_total.
    + intros a b c _ _ _. apply season_trans.
    + apply Forall_forall. auto.
Qed.

(** One event keeps each collection in its order. *)
Lemma handleDbChange_inOrder payload s k :
  timedEvent payload ->
  inOrder k (getKey k s) ->
  inOrder k (getKey k (handleDbChange payload s)).
Proof.
  intros He Hk.
  destruct (tableKeyMap (table payload)) as [k'|] eqn:Hmap.
  - destruct (StateKey_eqb k k') eqn:Hkk.
    + apply StateKey_eqb_eq in Hkk. subst k'.
      rewrite handleDbChange_same by exact Hmap.
      apply keepSorted_inOrder.
      apply applyEvent_timedFor; auto using inOrder_timedFor.
    + rewrite handleDbChange_other; [exact Hk |].
      rewrite Hmap. intros E. injection E as E. symmetry in E.
      apply StateKey_eqb_eq in E. congruence.
  - rewrite handleDbChange_other; [exact Hk |].
    rewrite Hmap. discriminate.
Qed.
End Consistent.
End Order.

(** The initial state is in order. *)
Lemma ordered_INITIAL_STATE dateTime localeCompare :
  ordered dateTime localeCompare INITIAL_STATE.
Proof. repeat split; constructor. Qed.

(** C2, as the handler implements it.  Order invariant: from a snapshot
    whose Announcement collection is in non-increasing timestamp order,
    whose ChatMessage collection is in non-decreasing timestamp order and
    whose CnflHistory collection is in non-decreasing seasonNumber order
    under the order that [localeCompare] computes (the host's collation,
    which is not the lexicographic order), every sequence of change events
    whose rows carry valid dates leads to a snapshot with the same three
    orders.  The collation is a consistent comparator. *)
Theorem order_invariant
  (dateTime : string -> Js.number) (localeCompare : string -> string -> Z)
  (s : AppState) (payloads : list Payload) :
  consistent localeCompare ->
  ordered dateTime localeCompare s ->
  Forall (timedEvent dateTime) payloads ->
  ordered dateTime localeCompare (applyAll dateTime localeCompare payloads s).
Proof.
  intros Hc Hs Hp. induction payloads as [|payload payloads IH] using rev_ind.
  - exact Hs.
  - apply Forall_app in Hp. destruct Hp as [Hp He].
    inversion He as [|? ? Hpayload _]; subst.
    specialize (IH Hp). rewrite applyAll_snoc.
    destruct IH as (Ha & Hm & Hh).
    repeat split.
    + apply (handleDbChange_inOrder _ _ Hc _ _ KAnnouncements Hpayload Ha).
    + apply (handleDbChange_inOrder _ _ Hc _ _ KAnnouncements Hpayload Ha).
    + apply (handleDbChange_inOrder _ _ Hc _ _ KChatMessages Hpayload Hm).
    + apply (handleDbChange_inOrder _ _ Hc _ _ KChatMessages Hpayload Hm).
    + apply (handleDbChange_inOrder _ _ Hc _ _ KCnflHistory Hpayload Hh).
Qed.

(** Character-by-character comparison is a consistent comparator. *)
Lemma compare_not_Gt_trans a b c :
  String.compare a b <> Gt -> String.compare b c <> Gt ->
  String.compare a c <> Gt.
Proof.
  revert b c. induction a as [|x a IH]; intros [|y b] [|z c]; simpl;
    try congruence.
  unfold Ascii.compare.
  destruct (N.compare_spec (N_of_ascii x) (N_of_ascii y)) as [Hxy | Hxy | Hxy];
    destruct (N.compare_spec (N_of_ascii y) (N_of_ascii z)) as [Hyz | Hyz | Hyz];
    destruct (N.compare_spec (N_of_ascii x) (N_of_ascii z)) as [Hxz | Hxz | Hxz];
    try congruence; try lia.
  apply IH.
Qed.

Lemma lexCompare_consistent : consistent lexCompare.
Proof.
  split.
  - intros a b. unfold lexCompare. rewrite (String.compare_antisym a b).
    destruct (String.compare b a); reflexivity.
  - intros a b c. unfold lexCompare. intros Hab Hbc.
    assert (H : String.compare a c <> Gt).
    { apply (compare_not_Gt_trans a b c).
      - destruct (String.compare a b); [discriminate | discriminate | lia].
      - destruct (String.compare b c); [discriminate | discriminate | lia]. }
    destruct (String.compare a c); [lia | lia | congruence].
Qed.

(** Scenario: an INSERT of [a1], later than the loaded [a0], puts [a1]
    first. *)
Example insert_newer_announcement :
  announcements
    (handleDbChange sampleDate lexCompare
       (change "announcements" "INSERT" a1 a1) oneAnnouncement)
  = [a1; a0].
Proof. reflexivity. Qed.

Lemma order_invariant_witness :
  consistent lexCompare
  /\ ordered sampleDate lexCompare oneAnnouncement
  /\ Forall (timedEvent sampleDate) [change "announcements" "INSERT" a1 a1]
  /\ ordered sampleDate lexCompare
       (applyAll sampleDate lexCompare
          [change "announcements" "INSERT" a1 a1] oneAnnouncement).
Proof.
  assert (Ho : ordered sampleDate lexCompare oneAnnouncement).
  { repeat split; repeat constructor. simpl. discriminate. }
  assert (Hp : Forall (timedEvent sampleDate)
                 [change "announcements" "INSERT" a1 a1]).
  { repeat constructor. intros _ _. simpl. discriminate. }
  split; [exact lexCompare_consistent |].
  split; [exact Ho |].
  split; [exact Hp |].
  exact (order_invariant sampleDate lexCompare oneAnnouncement _
           lexCompare_consistent Ho Hp).
Defined.

Lemma caseBlindCompare_consistent : consistent Stream.caseBlindCompare.
Proof.
  destruct lexCompare_consistent as [Hanti Htrans].
  unfold Stream.caseBlindCompare. split.
  - intros a b. apply Hanti.
  - intros a b c. apply Htrans.
Qed.

(** The claim's orders fail in two ways.  Under a collation that, like the
    host's, orders letters before their case, an INSERT of the season [s1]
    into the history that holds [S2] gives [s1] before [S2], and
    lexicographically [s1] comes after [S2]: the history is in the order of
    the collation and not in lexicographic order.  And after the INSERT of
    an announcement whose timestamp is no date, an INSERT of the June
    announcement [a1] leaves it behind the January announcement [a0]: two
    rows with valid dates stand oldest first. *)
Lemma orders_as_claimed_fail :
  (consistent Stream.caseBlindCompare
   /\ ordered sampleDate Stream.caseBlindCompare Stream.oneSeason
   /\ cnflHistory
        (handleDbChange sampleDate Stream.caseBlindCompare
           (change "cnfl_history" "INSERT" Stream.season1 Stream.season1)
           Stream.oneSeason)
      = [Stream.season1; Stream.season2]
   /\ String.compare (seasonNumber Stream.season1)
        (seasonNumber Stream.season2) = Gt
   /\ ~ seasonsAscending lexCompare [Stream.season1; Stream.season2])
  /\ (ordered sampleDate lexCompare oneAnnouncement
      /\ announcements
           (applyAll sampleDate lexCompare
              [change "announcements" "INSERT" Stream.undated Stream.undated;
               change "announcements" "INSERT" a1 a1] oneAnnouncement)
         = [a0; Stream.undated; a1]
      /\ timeOf sampleDate a0 = Some 1704067200000%Z
      /\ timeOf sampleDate a1 = Some 1717200000000%Z
      /\ ~ timeLe sampleDate a1 a0
      /\ ~ newestFirst sampleDate [a0; Stream.undated; a1]).
Proof.
  split.
  - split; [exact caseBlindCompare_consistent |].
    split; [repeat split; repeat constructor |].
    split; [reflexivity |]. split; [reflexivity |].
    intros H. inversion H as [|? ? _ Hhead]; subst.
    inversion Hhead as [|? ? Hle _]; subst.
    vm_compute in Hle. now apply Hle.
  - split; [repeat split; repeat constructor; simpl; discriminate |].
    split; [reflexivity |]. split; [reflexivity |]. split; [reflexivity |].
    split.
    + vm_compute. intros H. now apply H.
    + intros H. inversion H as [|? ? _ Hhead]; subst.
      inversion Hhead as [|? ? Hle _]; subst.
      vm_compute in Hle. exact Hle.
Qed.

(** *** The three kinds of event *)

(** The collections without an order are stored as the event leaves
    them. *)
Lemma keepSorted_unsorted dateTime localeCompare k rows :
  sortedKey k = false -> keepSorted dateTime localeCompare k rows = rows.
Proof. destruct k; simpl; congruence. Qed.

Lemma id_neq_eqb (rows : list Row) i :
  (forall y, In y rows -> id y <> i) ->
  forall y, In y rows -> (id y =? i) = false.
Proof. intros H y Hy. apply String.eqb_neq. now apply H. Qed.

(** C3.  An UPDATE addressed to a list collection is never dropped: the
    collection afterwards contains [newRecord].  When a row has its id, the
    first such row is replaced by [newRecord]; when none has, [newRecord] is
    appended; in both cases the collection is then re-sorted (a
    rearrangement, and none at all for the six collections without an
    order).  In particular a snapshot whose only player is [p1] without
    points holds, after an UPDATE of [p1] with points 10 and 20, exactly
    that one player with those points. *)
Theorem update_replaces_or_appends
  (dateTime : string -> Js.number) (localeCompare : string -> string -> Z)
  (payload : Payload) (s : AppState) (k : StateKey) :
  tableKeyMap (table payload) = Some k ->
  eventType payload = "UPDATE" ->
  In (new payload)
     (getKey k (handleDbChange dateTime localeCompare payload s))
  /\ (forall before x after,
        getKey k s = before ++ x :: after ->
        id x = id (new payload) ->
        (forall y, In y before -> id y <> id (new payload)) ->
        getKey k (handleDbChange dateTime localeCompare payload s)
        = keepSorted dateTime localeCompare k
            (before ++ new payload :: after)
        /\ Permutation
             (getKey k (handleDbChange dateTime localeCompare payload s))
             (before ++ new payload :: after)
        /\ (sortedKey k = false ->
            getKey k (handleDbChange dateTime localeCompare payload s)
            = before ++ new payload :: after))
  /\ ((forall y, In y (getKey k s) -> id y <> id (new payload)) ->
      getKey k (handleDbChange dateTime localeCompare payload s)
      = keepSorted dateTime localeCompare k (getKey k s ++ [new payload])
      /\ Permutation
           (getKey k (handleDbChange dateTime localeCompare payload s))
           (getKey k s ++ [new payload])
      /\ (sortedKey k = false ->
          getKey k (handleDbChange dateTime localeCompare payload s)
          = getKey k s ++ [new payload]))
  /\ getKey KPlayers
       (handleDbChange dateTime localeCompare
          (change "players" "UPDATE" p1Scored p1) onePlayer)
     = [row "p1" "" "" [10%Z; 20%Z]].
Proof.
  intros Hk He.
  rewrite (handleDbChange_same _ _ _ _ _ Hk).
  assert (Hfound : forall before x after,
             getKey k s = before ++ x :: after ->
             id x = id (new payload) ->
             (forall y, In y before -> id y <> id (new payload)) ->
             applyEvent payload (getKey k s) = before ++ new payload :: after).
  { intros before x after Hrows Hx Hb.
    unfold applyEvent, recordIdOf. rewrite He. simpl. rewrite Hrows.
    rewrite JsFacts.findIndex_first.
    - apply JsFacts.assign_middle.
    - now apply String.eqb_eq.
    - now apply id_neq_eqb. }
  assert (Habsent : (forall y, In y (getKey k s) -> id y <> id (new payload)) ->
             applyEvent payload (getKey k s) = getKey k s ++ [new payload]).
  { intros Hn. unfold applyEvent, recordIdOf. rewrite He. simpl.
    replace (Js.findIndex _ (getKey k s)) with (@None nat); [reflexivity |].
    symmetry. apply JsFacts.findIndex_None. now apply id_neq_eqb. }
  split; [| split; [| split]].
  - apply (Permutation_in _ (Permutation_sym (keepSorted_perm _ _ _ _))).
    unfold applyEvent, recordIdOf. rewrite He. simpl.
    destruct (Js.findIndex _ (getKey k s)) as [index|] eqn:Hf.
    + destruct (JsFacts.findIndex_Some _ _ _ Hf)
        as (before & x & after & _ & _ & _ & _ & Ha).
      rewrite Ha. apply in_or_app. right. now left.
    + unfold Js.push. apply in_or_app. right. now left.
  - intros before x after Hrows Hx Hb.
    rewrite (Hfound before x after Hrows Hx Hb).
    split; [reflexivity | split; [apply keepSorted_perm |]].
    intros Hu. now apply keepSorted_unsorted.
  - intros Hn. rewrite (Habsent Hn).
    split; [reflexivity | split; [apply keepSorted_perm |]].
    intros Hu. now apply keepSorted_unsorted.
  - reflexivity.
Qed.

Lemma update_replaces_or_appends_witness :
  tableKeyMap (table (change "players" "UPDATE" p1Scored p1)) = Some KPlayers
  /\ eventType (change "players" "UPDATE" p1Scored p1) = "UPDATE"
  /\ In p1Scored
       (getKey KPlayers
          (handleDbChange sampleDate lexCompare
             (change "players" "UPDATE" p1Scored p1) onePlayer)).
Proof.
  split; [reflexivity |]. split; [reflexivity |].
  exact (proj1 (update_replaces_or_appends sampleDate lexCompare
                  (change "players" "UPDATE" p1Scored p1) onePlayer KPlayers
                  eq_refl eq_refl)).
Defined.

Lemma setKey_setKey k rows rows' s :
  setKey k rows (setKey k rows' s) = setKey k rows s.
Proof. destruct k; reflexivity. Qed.

Lemma timedState_timedFor dateTime s k :
  timedState dateTime s -> timedFor dateTime k (getKey k s).
Proof. intros [Ha Hc]. destruct k; simpl; auto. Qed.

(** The handler on a table of the map, in one equation. *)
Lemma handleDbChange_list dateTime localeCompare payload s k :
  tableKeyMap (table payload) = Some k ->
  handleDbChange dateTime localeCompare payload s
  = setKey k (keepSorted dateTime localeCompare k
                (applyEvent payload (getKey k s))) s.
Proof.
  intros Hk. unfold handleDbChange.
  destruct (tableKeyMap_Some _ _ Hk) as [_ Hns].
  apply String.eqb_neq in Hns. now rewrite Hns, Hk.
Qed.

(** C4.  An INSERT applied twice gives the snapshot that applying it once
    gives.  On a list collection it appends [newRecord] only when no row has
    its id: when one has, the collection is only re-sorted, and when none
    has, [newRecord] is appended before the re-sort.  Timestamps are valid
    dates and the string comparison is consistent. *)
Theorem insert_idempotent
  (dateTime : string -> Js.number) (localeCompare : string -> string -> Z)
  (payload : Payload) (s : AppState) :
  consistent localeCompare ->
  timedState dateTime s ->
  timedEvent dateTime payload ->
  eventType payload = "INSERT" ->
  handleDbChange dateTime localeCompare payload
    (handleDbChange dateTime localeCompare payload s)
  = handleDbChange dateTime localeCompare payload s
  /\ forall k,
       tableKeyMap (table payload) = Some k ->
       ((exists x, In x (getKey k s) /\ id x = id (new payload)) ->
        getKey k (handleDbChange dateTime localeCompare payload s)
        = keepSorted dateTime localeCompare k (getKey k s))
       /\ ((forall x, In x (getKey k s) -> id x <> id (new payload)) ->
           getKey k (handleDbChange dateTime localeCompare payload s)
           = keepSorted dateTime localeCompare k
               (getKey k s ++ [new payload])).
Proof.
  intros Hc Hs Hp He.
  assert (Hpresent : forall rows,
             (exists x, In x rows /\ id x = id (new payload)) ->
             applyEvent payload rows = rows).
  { intros rows (x & Hx & Hid). unfold applyEvent, recordIdOf.
    rewrite He. simpl.
    replace (Js.some _ rows) with true; [reflexivity |].
    symmetry. apply JsFacts.some_true. exists x. split; [exact Hx |].
    now apply String.eqb_eq. }
  assert (Habsent : forall rows,
             (forall x, In x rows -> id x <> id (new payload)) ->
             applyEvent payload rows = rows ++ [new payload]).
  { intros rows Hn. unfold applyEvent, recordIdOf. rewrite He. simpl.
    replace (Js.some _ rows) with false; [reflexivity |].
    symmetry. apply JsFacts.some_false. now apply id_neq_eqb. }
  split.
  - destruct (tableKeyMap (table payload)) as [k|] eqn:Hk.
    + rewrite !(handleDbChange_list _ _ _ _ k Hk).
      rewrite getKey_setKey_same, setKey_setKey.
      set (rows := getKey k s).
      set (once := keepSorted dateTime localeCompare k
                     (applyEvent payload rows)).
      assert (Hin : exists x, In x once /\ id x = id (new payload)).
      { assert (H : exists x, In x (applyEvent payload rows)
                              /\ id x = id (new payload)).
        { destruct (Js.some (fun item => id item =? id (new payload)) rows)
            eqn:Hsome.
          - apply JsFacts.some_true in Hsome. destruct Hsome as (x & Hx & Hid).
            apply String.eqb_eq in Hid.
            rewrite Hpresent by (exists x; tauto). exists x. tauto.
          - rewrite Habsent.
            + exists (new payload). split; [| reflexivity].
              apply in_or_app. right. now left.
            + intros x Hx. apply String.eqb_neq.
              exact (proj1 (JsFacts.some_false _ _) Hsome x Hx). }
        destruct H as (x & Hx & Hid). exists x. split; [| exact Hid].
        apply (Permutation_in _ (Permutation_sym (keepSorted_perm _ _ _ _))).
        exact Hx. }
      rewrite (Hpresent once Hin).
      rewrite keepSorted_fixed; [reflexivity |].
      apply (keepSorted_inOrder _ _ Hc).
      apply applyEvent_timedFor; auto. now apply timedState_timedFor.
    + unfold handleDbChange. rewrite Hk.
      destruct (table payload =? "site_settings") eqn:Ht.
      * rewrite He. reflexivity.
      * reflexivity.
  - intros k Hk. rewrite (handleDbChange_same _ _ _ _ _ Hk). split.
    + intros Hx. now rewrite Hpresent.
    + intros Hn. now rewrite Habsent.
Qed.

Lemma insert_idempotent_witness :
  consistent lexCompare
  /\ timedState sampleDate oneAnnouncement
  /\ timedEvent sampleDate (change "announcements" "INSERT" a1 a1)
  /\ eventType (change "announcements" "INSERT" a1 a1) = "INSERT"
  /\ handleDbChange sampleDate lexCompare
       (change "announcements" "INSERT" a1 a1)
       (handleDbChange sampleDate lexCompare
          (change "announcements" "INSERT" a1 a1) oneAnnouncement)
     = handleDbChange sampleDate lexCompare
         (change "announcements" "INSERT" a1 a1) oneAnnouncement.
Proof.
  assert (Hs : timedState sampleDate oneAnnouncement).
  { split; repeat constructor. simpl. discriminate. }
  assert (Hp : timedEvent sampleDate (change "announcements" "INSERT" a1 a1)).
  { intros _ _. simpl. discriminate. }
  split; [exact lexCompare_consistent |].
  split; [exact Hs |].
  split; [exact Hp |].
  split; [reflexivity |].
  exact (proj1 (insert_idempotent sampleDate lexCompare
                  (change "announcements" "INSERT" a1 a1) oneAnnouncement
                  lexCompare_consistent Hs Hp eq_refl)).
Defined.



(** *** What an event leaves alone *)

Lemma siteSettings_handleDbChange dateTime localeCompare payload s :
  table payload <> "site_settings" ->
  siteSettings (handleDbChange dateTime localeCompare payload s)
  = siteSettings s.
Proof.
  intros Hns. unfold handleDbChange.
  apply String.eqb_neq in Hns. rewrite Hns.
  destruct (tableKeyMap (table payload)); [apply siteSettings_setKey |].
  reflexivity.
Qed.

(** C9.  One change event modifies at most the collection its table name
    stands for: an event on the table of a list collection leaves the other
    eight list collections and the SiteSettings singleton exactly as they
    were, and a SiteSettings event leaves all nine list collections exactly
    as they were. *)
Theorem change_event_frame
  (dateTime : string -> Js.number) (localeCompare : string -> string -> Z)
  (payload : Payload) (s : AppState) :
  (forall k,
     tableKeyMap (table payload) = Some k ->
     (forall k', k' <> k ->
        getKey k' (handleDbChange dateTime localeCompare payload s)
        = getKey k' s)
     /\ siteSettings (handleDbChange dateTime localeCompare payload s)
        = siteSettings s)
  /\ (table payload = "site_settings" ->
      forall k',
        getKey k' (handleDbChange dateTime localeCompare payload s)
        = getKey k' s).
Proof.
  split.
  - intros k Hk. split.
    + intros k' Hne. apply handleDbChange_other. rewrite Hk. congruence.
    + apply siteSettings_handleDbChange.
      now destruct (tableKeyMap_Some _ _ Hk).
  - intros Ht k'. apply handleDbChange_other. rewrite Ht. discriminate.
Qed.

Lemma change_event_frame_witness :
  tableKeyMap (table (change "players" "UPDATE" p1Scored p1)) = Some KPlayers
  /\ (forall k', k' <> KPlayers ->
        getKey k'
          (handleDbChange sampleDate lexCompare
             (change "players" "UPDATE" p1Scored p1) onePlayer)
        = getKey k' onePlayer)
  /\ siteSettings
       (handleDbChange sampleDate lexCompare
          (change "players" "UPDATE" p1Scored p1) onePlayer)
     = siteSettings onePlayer.
Proof.
  split; [reflexivity |].
  exact (proj1 (change_event_frame sampleDate lexCompare
                  (change "players" "UPDATE" p1Scored p1) onePlayer)
           KPlayers eq_refl).
Defined.

(** C10.  An event whose table name is none of the ten the handler knows,
    and a DELETE on [site_settings], leave the whole snapshot as it was. *)
Theorem unknown_table_or_settings_delete_ignored
  (dateTime : string -> Js.number) (localeCompare : string -> string -> Z)
  (payload : Payload) (s : AppState) :
  ~ In (table payload) recognizedTables
  \/ (table payload = "site_settings" /\ eventType payload = "DELETE") ->
  handleDbChange dateTime localeCompare payload s = s.
Proof.
  intros [Hunknown | [Ht He]]; unfold handleDbChange.
  - destruct (String.eqb_spec (table payload) "site_settings") as [E | _].
    + exfalso. apply Hunknown. rewrite E. simpl. tauto.
    + replace (tableKeyMap (table payload)) with (@None StateKey);
        [reflexivity |].
      symmetry. apply tableKeyMap_None. now left.
  - rewrite Ht, He. reflexivity.
Qed.

Lemma unknown_table_or_settings_delete_ignored_witness :
  (~ In (table (change "site_settings" "DELETE" p1 p1)) recognizedTables
   \/ (table (change "site_settings" "DELETE" p1 p1) = "site_settings"
       /\ eventType (change "site_settings" "DELETE" p1 p1) = "DELETE"))
  /\ handleDbChange sampleDate lexCompare
       (change "site_settings" "DELETE" p1 p1) onePlayer
     = onePlayer.
Proof.
  assert (H : ~ In (table (change "site_settings" "DELETE" p1 p1))
                  recognizedTables
              \/ (table (change "site_settings" "DELETE" p1 p1)
                  = "site_settings"
                  /\ eventType (change "site_settings" "DELETE" p1 p1)
                     = "DELETE")).
  { right. split; reflexivity. }
  split; [exact H |].
  exact (unknown_table_or_settings_delete_ignored sampleDate lexCompare
           (change "site_settings" "DELETE" p1 p1) onePlayer H).
Defined.

(** An event on a table the handler does not know, here [audit_log]. *)
Example unknown_table_ignored :
  handleDbChange sampleDate lexCompare
    (change "audit_log" "INSERT" p1 p1) onePlayer
  = onePlayer.
Proof. reflexivity. Qed.

(** *** The initial load *)

Lemma checkError_fatal res name :
  fatal res = true -> exists msg, checkError res name = Throw msg.
Proof.
  unfold fatal, checkError. destruct (error res) as [err|]; [| discriminate].
  intros ->. eauto.
Qed.

Lemma checkError_passes res name :
  fatal res = false -> checkError res name = Normal (rowsOf res).
Proof.
  unfold fatal, checkError. destruct (error res) as [err|]; [| reflexivity].
  now intros ->.
Qed.

Ltac check_read r name :=
  let H := fresh "Hread" in
  let msg := fresh "msg" in
  destruct (fatal r) eqn:H;
  [ destruct (checkError_fatal r name H) as [msg ->]; simpl; eauto
  | rewrite (checkError_passes r name H); simpl ].

(** Either one of the nine list reads has an error other than PGRST116 and
    building the snapshot throws, or the snapshot is built from the data of
    all ten reads. *)
Lemma loadedState_cases r :
  if existsb fatal (listReads r)
  then exists msg, loadedState r = Throw msg
  else loadedState r
       = Normal
           {| users := rowsOf (usersRead r);
              events := rowsOf (eventsRead r);
              teams := rowsOf (teamsRead r);
              players := rowsOf (playersRead r);
              participantTeams := rowsOf (participantTeamsRead r);
              replacementRequests := rowsOf (replacementRequestsRead r);
              announcements := rowsOf (announcementsRead r);
              chatMessages := rowsOf (chatMessagesRead r);
              cnflHistory := rowsOf (cnflHistoryRead r);
              siteSettings := match data (siteSettingsRead r) with
                              | Some row => row
                              | None => defaultSiteSettings
                              end |}.
Proof.
  unfold loadedState, listReads. simpl.
  check_read (usersRead r) "profiles".
  check_read (eventsRead r) "events".
  check_read (teamsRead r) "teams".
  check_read (playersRead r) "players".
  check_read (participantTeamsRead r) "participant_teams".
  check_read (replacementRequestsRead r) "replacement_requests".
  check_read (announcementsRead r) "announcements".
  check_read (chatMessagesRead r) "chat_messages".
  check_read (cnflHistoryRead r) "cnfl_history".
  reflexivity.
Qed.

(** C5, as the provider implements it.  A list read that carries an error
    whose code is not PGRST116 aborts the load: the state keeps its value,
    one line is written to the error console and the loading flag is
    cleared.  Without such an error the snapshot is published from the data
    of the ten reads, with an empty list for a read without data, and a
    SiteSettings read without a row gives the default singleton. *)
Theorem initial_load_aborts_or_publishes (r : Reads) (s : Store) :
  (existsb fatal (listReads r) = true ->
   state (fetchData r s) = state s
   /\ loading (fetchData r s) = false
   /\ exists line, console (fetchData r s) = console s ++ [line])
  /\ (existsb fatal (listReads r) = false ->
      state (fetchData r s)
      = {| users := rowsOf (usersRead r);
           events := rowsOf (eventsRead r);
           teams := rowsOf (teamsRead r);
           players := rowsOf (playersRead r);
           participantTeams := rowsOf (participantTeamsRead r);
           replacementRequests := rowsOf (replacementRequestsRead r);
           announcements := rowsOf (announcementsRead r);
           chatMessages := rowsOf (chatMessagesRead r);
           cnflHistory := rowsOf (cnflHistoryRead r);
           siteSettings := match data (siteSettingsRead r) with
                           | Some row => row
                           | None => defaultSiteSettings
                           end |}
      /\ loading (fetchData r s) = false
      /\ console (fetchData r s) = console s)
  /\ (existsb fatal (listReads r) = false ->
      data (siteSettingsRead r) = None ->
      siteSettings (state (fetchData r s)) = defaultSiteSettings).
Proof.
  pose proof (loadedState_cases r) as H. unfold fetchData.
  destruct (existsb fatal (listReads r)).
  - destruct H as [msg ->]. split; [| split]; try discriminate.
    intros _. simpl. eauto.
  - rewrite H. split; [| split]; try discriminate.
    + intros _. simpl. auto.
    + intros _ Hnone. simpl. now rewrite Hnone.
Qed.

Lemma initial_load_aborts_or_publishes_witness :
  existsb fatal (listReads deniedReads) = true
  /\ state (fetchData deniedReads mounted) = state mounted
  /\ loading (fetchData deniedReads mounted) = false
  /\ exists line,
       console (fetchData deniedReads mounted) = console mounted ++ [line].
Proof.
  split; [reflexivity |].
  exact (proj1 (initial_load_aborts_or_publishes deniedReads mounted)
           eq_refl).
Defined.

(** A list read that carries the error PGRST116 does not abort the load:
    the profiles read of [noRowReads] failed, and yet the snapshot is
    published, with no user, and nothing is written to the console. *)
Lemma list_read_error_PGRST116_publishes :
  existsb failed (listReads noRowReads) = true
  /\ state (fetchData noRowReads mounted) = onePlayer
  /\ state (fetchData noRowReads mounted) <> state mounted
  /\ console (fetchData noRowReads mounted) = console mounted.
Proof.
  split; [reflexivity |]. split; [reflexivity |].
  split; [| reflexivity]. discriminate.
Qed.

(** The provider that reads through [api.getInitialData]: when that call
    throws, the state keeps its value, the error is written to the console
    and the loading flag is cleared. *)
Lemma fetchDataViaApi_throw msg s :
  state (fetchDataViaApi (Throw msg) s) = state s
  /\ loading (fetchDataViaApi (Throw msg) s) = false
  /\ console (fetchDataViaApi (Throw msg) s)
     = console s ++ [("Error fetching initial data: Error: " ++ msg)%string].
Proof. repeat split. Qed.

End DataFacts.

(* ===================================================================== *)
(** ** Session operations *)
(* ===================================================================== *)

Module AuthFacts.
Import Auth.

(** C6.  [register] against any gateway, from any world.  When credential
    creation fails, only the sign-up request is sent, so no profile row is
    created, and the result carries the gateway's message.  When credential
    creation succeeds and the profile insert fails, the result is the fixed
    profile-failure error, whatever the gateway said: a caller recognizes
    it by [profileFailed], which a clean failure passes only if the
    gateway's own message is that very sentence.  When both succeed the
    result is no error. *)
Theorem register_outcomes
  (supabase : Gateway) (fullName email fbLink password : string) (w : World) :
  let res := authSignUp supabase email password in
  let outcome := register supabase fullName email fbLink password w in
  (forall err,
     signUpError res = Some err ->
     fst outcome = Some {| message := message err |}
     /\ requests (snd outcome) = requests w ++ [SignUp email password]
     /\ (message err <> PROFILE_FAILED -> profileFailed (fst outcome) = false))
  /\ (forall uid err,
        signUpError res = None -> dataUser res = Some uid ->
        profilesInsert supabase
          {| id := uid; fullName := fullName; email := email;
             fbLink := fbLink; role := PARTICIPANT |} = Some err ->
        fst outcome = Some {| message := PROFILE_FAILED |}
        /\ profileFailed (fst outcome) = true
        /\ fst outcome <> None)
  /\ (forall uid,
        signUpError res = None -> dataUser res = Some uid ->
        profilesInsert supabase
          {| id := uid; fullName := fullName; email := email;
             fbLink := fbLink; role := PARTICIPANT |} = None ->
        fst outcome = None
        /\ profileFailed (fst outcome) = false).
Proof.
  intros res outcome. subst res outcome.
  unfold register, signUp, insertProfile, bind, send, ret, consoleError.
  simpl. split; [| split].
  - intros err Herr. rewrite Herr. simpl.
    split; [reflexivity | split; [reflexivity |]].
    intros Hne. now apply String.eqb_neq.
  - intros uid err Hok Huid Hins. rewrite Hok, Huid. simpl. rewrite Hins.
    simpl. split; [reflexivity | split; [reflexivity | discriminate]].
  - intros uid Hok Huid Hins. rewrite Hok, Huid. simpl. rewrite Hins.
    simpl. split; reflexivity.
Qed.

Lemma register_outcomes_witness :
  signUpError (authSignUp halfway "ada@cnfl.com" "secret") = None
  /\ dataUser (authSignUp halfway "ada@cnfl.com" "secret") = Some "u1"
  /\ profilesInsert halfway ada = Some unreachable
  /\ fst (register halfway "Ada" "ada@cnfl.com" "https://facebook.com/ada"
            "secret" signedOut)
     = Some {| message := PROFILE_FAILED |}.
Proof.
  split; [reflexivity |]. split; [reflexivity |]. split; [reflexivity |].
  exact (proj1 (proj1 (proj2
           (register_outcomes halfway "Ada" "ada@cnfl.com"
              "https://facebook.com/ada" "secret" signedOut))
           "u1" unreachable eq_refl eq_refl eq_refl)).
Defined.

(** The three outcomes on the scenario gateways. *)
Example register_rejected :
  register rejecting "Ada" "ada@cnfl.com" "https://facebook.com/ada" "secret"
    signedOut
  = (Some taken,
     {| user := None; loading := false;
        requests := [SignUp "ada@cnfl.com" "secret"]; console := [] |}).
Proof. reflexivity. Qed.

Example register_accepted :
  register accepting "Ada" "ada@cnfl.com" "https://facebook.com/ada" "secret"
    signedOut
  = (None,
     {| user := None; loading := false;
        requests := [SignUp "ada@cnfl.com" "secret"; InsertProfile ada];
        console := [] |}).
Proof. reflexivity. Qed.

(** Sign-up that succeeds without a user sends no profile insert and
    reports no error. *)
Lemma register_without_user
  (supabase : Gateway) (fullName email fbLink password : string) (w : World) :
  signUpError (authSignUp supabase email password) = None ->
  dataUser (authSignUp supabase email password) = None ->
  register supabase fullName email fbLink password w
  = (None, {| user := user w; loading := loading w;
              requests := requests w ++ [SignUp email password];
              console := console w |}).
Proof.
  intros Hok Hnone.
  unfold register, signUp, bind, send, ret. simpl. now rewrite Hok, Hnone.
Qed.

(** The provider that goes through [api.signUp] returns the message of
    whatever that call throws, and no error when it resolves. *)
Lemma registerViaApi_outcomes (apiSignUp : option ErrorMessage) (w : World) :
  fst (registerViaApi apiSignUp w)
  = match apiSignUp with
    | Some err => Some {| message := message err |}
    | None => None
    end
  /\ snd (registerViaApi apiSignUp w) = w.
Proof. destruct apiSignUp; split; reflexivity. Qed.

(** C7.  [logout] leaves the local user cleared from every world and
    whatever the gateway answers to the sign-out request, an error
    included; the sign-out request is sent first. *)
Theorem logout_clears_user (supabase : Gateway) (w : World) :
  user (snd (logout supabase w)) = None
  /\ requests (snd (logout supabase w)) = requests w ++ [SignOut].
Proof. split; reflexivity. Qed.

(** Sign-out fails at the gateway and the user is cleared all the same. *)
Example logout_with_failing_gateway :
  authSignOut rejecting = Some unreachable
  /\ user signedIn = Some ada
  /\ user (snd (logout rejecting signedIn)) = None.
Proof. repeat split. Qed.

End AuthFacts.

(* ===================================================================== *)
(** ** How change events compose *)
(* ===================================================================== *)

Module StreamFacts.
Import Data Stream.

(** A snapshot is its nine collections and its settings. *)
Lemma AppState_ext (a b : AppState) :
  (forall k, getKey k a = getKey k b) ->
  siteSettings a = siteSettings b -> a = b.
Proof.
  intros Hk Hs. destruct a, b. simpl in Hs.
  pose proof (Hk KUsers). pose proof (Hk KEvents). pose proof (Hk KTeams).
  pose proof (Hk KPlayers). pose proof (Hk KParticipantTeams).
  pose proof (Hk KReplacementRequests). pose proof (Hk KAnnouncements).
  pose proof (Hk KChatMessages). pose proof (Hk KCnflHistory).
  simpl in *. congruence.
Qed.

Lemma slotOf_list payload k :
  tableKeyMap (table payload) = Some k -> slotOf payload = Some (ListSlot k).
Proof.
  intros Hk. unfold slotOf.
  destruct (DataFacts.tableKeyMap_Some _ _ Hk) as [_ Hns].
  apply String.eqb_neq in Hns. now rewrite Hns, Hk.
Qed.

Lemma writesSettings_slot payload :
  writesSettings payload = true -> slotOf payload = Some SettingsSlot.
Proof.
  unfold writesSettings, slotOf. intros H.
  apply andb_true_iff in H. destruct H as [-> _]. reflexivity.
Qed.

Section Compose.
Variable dateTime : string -> Js.number.
Variable localeCompare : string -> string -> Z.

Local Abbreviation keepSorted := (keepSorted dateTime localeCompare).
Local Abbreviation handleDbChange := (handleDbChange dateTime localeCompare).
Local Abbreviation applyAll := (applyAll dateTime localeCompare).

(** The settings after one event. *)
Lemma siteSettings_after payload s :
  siteSettings (handleDbChange payload s)
  = if writesSettings payload then new payload else siteSettings s.
Proof.
  unfold Data.handleDbChange, writesSettings.
  destruct (table payload =? "site_settings"); simpl.
  - now destruct (_ || _).
  - destruct (tableKeyMap (table payload));
      [apply DataFacts.siteSettings_setKey | reflexivity].
Qed.

(** A collection after one event, addressed to it or not. *)
Lemma getKey_after payload s k :
  getKey k (handleDbChange payload s)
  = if match slotOf payload with
       | Some (ListSlot k') => StateKey_eqb k k'
       | _ => false
       end
    then keepSorted k (applyEvent payload (getKey k s))
    else getKey k s.
Proof.
  destruct (tableKeyMap (table payload)) as [k'|] eqn:Hk.
  - rewrite (slotOf_list _ _ Hk).
    destruct (StateKey_eqb k k') eqn:Hkk.
    + apply DataFacts.StateKey_eqb_eq in Hkk. subst k'.
      now apply DataFacts.handleDbChange_same.
    + apply DataFacts.handleDbChange_other. rewrite Hk.
      intros E. injection E as E. symmetry in E.
      apply DataFacts.StateKey_eqb_eq in E. congruence.
  - rewrite DataFacts.handleDbChange_other by (rewrite Hk; discriminate).
    unfold slotOf. rewrite Hk.
    now destruct (table payload =? "site_settings").
Qed.
End Compose.

(** X1.  Two change events that write different slots of the snapshot (two
    different collections, or a collection and the settings) can be applied
    in either order: the resulting snapshot is the same. *)
Theorem events_on_different_slots_commute
  (dateTime : string -> Js.number) (localeCompare : string -> string -> Z)
  (first second : Payload) (s : AppState) :
  slotOf first <> slotOf second ->
  handleDbChange dateTime localeCompare second
    (handleDbChange dateTime localeCompare first s)
  = handleDbChange dateTime localeCompare first
      (handleDbChange dateTime localeCompare second s).
Proof.
  intros Hne. apply AppState_ext.
  - intros k. rewrite !getKey_after.
    destruct (slotOf first) as [[k1|]|] eqn:H1;
      destruct (slotOf second) as [[k2|]|] eqn:H2; try reflexivity.
    destruct (StateKey_eqb k k1) eqn:E1;
      destruct (StateKey_eqb k k2) eqn:E2; try reflexivity.
    apply DataFacts.StateKey_eqb_eq in E1, E2. congruence.
  - rewrite !siteSettings_after.
    destruct (writesSettings first) eqn:W1;
      destruct (writesSettings second) eqn:W2; try reflexivity.
    apply writesSettings_slot in W1, W2. congruence.
Qed.

Lemma events_on_different_slots_commute_witness :
  slotOf (change "players" "UPDATE" p1Scored p1)
  <> slotOf (change "announcements" "INSERT" a1 a1)
  /\ handleDbChange sampleDate lexCompare
       (change "announcements" "INSERT" a1 a1)
       (handleDbChange sampleDate lexCompare
          (change "players" "UPDATE" p1Scored p1) onePlayer)
     = handleDbChange sampleDate lexCompare
         (change "players" "UPDATE" p1Scored p1)
         (handleDbChange sampleDate lexCompare
            (change "announcements" "INSERT" a1 a1) onePlayer).
Proof.
  assert (H : slotOf (change "players" "UPDATE" p1Scored p1)
              <> slotOf (change "announcements" "INSERT" a1 a1)).
  { simpl. discriminate. }
  split; [exact H |].
  exact (events_on_different_slots_commute sampleDate lexCompare _ _
           onePlayer H).
Defined.

(** X2.  An event addressed to a list collection touches only the rows
    that carry its record id: a row with any other id is in the collection
    afterwards exactly when it was in it before. *)
Theorem event_keeps_rows_of_other_ids
  (dateTime : string -> Js.number) (localeCompare : string -> string -> Z)
  (payload : Payload) (s : AppState) (k : StateKey) (r : Row) :
  tableKeyMap (table payload) = Some k ->
  id r <> recordIdOf payload ->
  In r (getKey k (handleDbChange dateTime localeCompare payload s))
  <-> In r (getKey k s).
Proof.
  intros Hk Hid. rewrite (DataFacts.handleDbChange_same _ _ _ _ _ Hk).
  assert (Hperm : forall rows,
             In r (keepSorted dateTime localeCompare k rows) <-> In r rows).
  { intros rows. split; apply Permutation_in;
      [| symmetry]; apply DataFacts.keepSorted_perm. }
  rewrite Hperm. unfold applyEvent.
  set (rows := getKey k s). set (rid := recordIdOf payload) in *.
  assert (Hnew : eventType payload <> "DELETE" -> r <> new payload).
  { intros Hd E. apply Hid. subst r rid. unfold recordIdOf.
    apply String.eqb_neq in Hd. now rewrite Hd. }
  destruct (DataFacts.eventType_cases payload)
    as [E | [E | [E | (E1 & E2 & E3)]]].
  - rewrite E. simpl. destruct (Js.some _ rows); simpl; [tauto |].
    unfold Js.push. rewrite in_app_iff. simpl.
    assert (r <> new payload) by (apply Hnew; rewrite E; discriminate).
    intuition congruence.
  - rewrite E. simpl.
    assert (r <> new payload) by (apply Hnew; rewrite E; discriminate).
    destruct (Js.findIndex _ rows) as [index|] eqn:Hf.
    + destruct (JsFacts.findIndex_Some _ _ _ Hf)
        as (before & x & after & Hrows & _ & Hx & _ & Ha).
      rewrite Ha, Hrows, !in_app_iff. simpl.
      apply String.eqb_eq in Hx.
      assert (r <> x) by congruence.
      intuition congruence.
    + unfold Js.push. rewrite in_app_iff. simpl. intuition congruence.
  - rewrite E. simpl. unfold Js.filter. rewrite filter_In.
    split; [tauto |]. intros Hr. split; [exact Hr |].
    now apply negb_true_iff, String.eqb_neq.
  - rewrite E1, E2, E3. tauto.
Qed.

Lemma event_keeps_rows_of_other_ids_witness :
  tableKeyMap (table (change "announcements" "INSERT" a1 a1))
  = Some KAnnouncements
  /\ id a0 <> recordIdOf (change "announcements" "INSERT" a1 a1)
  /\ (In a0
        (getKey KAnnouncements
           (handleDbChange sampleDate lexCompare
              (change "announcements" "INSERT" a1 a1) oneAnnouncement))
      <-> In a0 (getKey KAnnouncements oneAnnouncement)).
Proof.
  assert (H : id a0 <> recordIdOf (change "announcements" "INSERT" a1 a1)).
  { simpl. discriminate. }
  split; [reflexivity |]. split; [exact H |].
  exact (event_keeps_rows_of_other_ids sampleDate lexCompare
           (change "announcements" "INSERT" a1 a1) oneAnnouncement
           KAnnouncements a0 eq_refl H).
Defined.

Lemma length_filter_occurrences j rows :
  (length (Js.filter (fun item => negb (id item =? j)%string) rows)
   + occurrences j rows)%nat
  = length rows.
Proof.
  unfold Js.filter, occurrences. induction rows as [|r rest IH]; simpl.
  - reflexivity.
  - destruct (String.eqb_spec (id r) j) as [E | E]; simpl;
      destruct (string_dec (id r) j); try contradiction; lia.
Qed.

(** X3.  How one event changes the size of the collection it is addressed
    to.  An INSERT or UPDATE leaves the size as it is when a row already has
    the id of [newRecord], and adds exactly one row when none has; neither
    ever removes a row.  A DELETE removes as many rows as carry the id of
    [oldRecord], and adds none. *)
Theorem event_changes_size
  (dateTime : string -> Js.number) (localeCompare : string -> string -> Z)
  (payload : Payload) (s : AppState) (k : StateKey) :
  tableKeyMap (table payload) = Some k ->
  (eventType payload = "INSERT" \/ eventType payload = "UPDATE" ->
   ((exists x, In x (getKey k s) /\ id x = id (new payload)) ->
    length (getKey k (handleDbChange dateTime localeCompare payload s))
    = length (getKey k s))
   /\ ((forall x, In x (getKey k s) -> id x <> id (new payload)) ->
       length (getKey k (handleDbChange dateTime localeCompare payload s))
       = S (length (getKey k s))))
  /\ (eventType payload = "DELETE" ->
      (length (getKey k (handleDbChange dateTime localeCompare payload s))
       + occurrences (id (old payload)) (getKey k s))%nat
      = length (getKey k s)).
Proof.
  intros Hk. rewrite (DataFacts.handleDbChange_same _ _ _ _ _ Hk).
  rewrite (Permutation_length (DataFacts.keepSorted_perm _ _ _ _)).
  unfold applyEvent, recordIdOf. set (rows := getKey k s). split.
  - intros [E | E]; rewrite E; simpl; split.
    + intros Hx. replace (Js.some _ rows) with true; [reflexivity |].
      symmetry. apply JsFacts.some_true.
      destruct Hx as (x & Hx & Hid). exists x. split; [exact Hx |].
      now apply String.eqb_eq.
    + intros Hn. replace (Js.some _ rows) with false.
      * simpl. unfold Js.push. rewrite length_app. simpl. lia.
      * symmetry. apply JsFacts.some_false. now apply DataFacts.id_neq_eqb.
    + intros (x & Hx & Hid).
      destruct (Js.findIndex _ rows) as [index|] eqn:Hf.
      * destruct (JsFacts.findIndex_Some _ _ _ Hf)
          as (before & y & after & Hrows & _ & _ & _ & Ha).
        rewrite Ha, Hrows, !length_app. reflexivity.
      * exfalso.
        pose proof (proj1 (JsFacts.findIndex_None _ _) Hf x Hx) as Hfalse.
        apply String.eqb_neq in Hfalse. contradiction.
    + intros Hn.
      replace (Js.findIndex _ rows) with (@None nat).
      * unfold Js.push. rewrite length_app. simpl. lia.
      * symmetry. apply JsFacts.findIndex_None.
        now apply DataFacts.id_neq_eqb.
  - intros E. rewrite E. simpl. apply length_filter_occurrences.
Qed.

Lemma event_changes_size_witness :
  tableKeyMap (table (change "announcements" "DELETE" a0 a0))
  = Some KAnnouncements
  /\ eventType (change "announcements" "DELETE" a0 a0) = "DELETE"
  /\ (length
        (getKey KAnnouncements
           (handleDbChange sampleDate lexCompare
              (change "announcements" "DELETE" a0 a0) oneAnnouncement))
      + occurrences (id (old (change "announcements" "DELETE" a0 a0)))
          (getKey KAnnouncements oneAnnouncement))%nat
     = length (getKey KAnnouncements oneAnnouncement).
Proof.
  split; [reflexivity |]. split; [reflexivity |].
  exact (proj2 (event_changes_size sampleDate lexCompare
                  (change "announcements" "DELETE" a0 a0) oneAnnouncement
                  KAnnouncements eq_refl) eq_refl).
Defined.

(** *** Filtering commutes with the re-sort *)

Section Stable.
Context {A : Type}.
Variable comparefn : A -> A -> Js.number.
Variable dom : A -> Prop.
Hypothesis total :
  forall a b, dom a -> dom b ->
    Js.notAfter comparefn a b \/ Js.notAfter comparefn b a.
Hypothesis trans :
  forall a b c, dom a -> dom b -> dom c ->
    Js.notAfter comparefn a b -> Js.notAfter comparefn b c ->
    Js.notAfter comparefn a c.

Lemma insert_first x (items : list A) :
  (forall z, In z items -> Js.notAfter comparefn x z) ->
  Js.insert comparefn x items = x :: items.
Proof.
  destruct items as [|y rest]; simpl; [reflexivity |].
  intros H. specialize (H y (or_introl eq_refl)). unfold Js.notAfter in H.
  destruct (Z.leb_spec (Js.sortCompare (comparefn x y)) 0);
    [reflexivity | lia].
Qed.

Lemma filter_insert p x (items : list A) :
  dom x -> Forall dom items ->
  StronglySorted (Js.notAfter comparefn) items ->
  List.filter p (Js.insert comparefn x items)
  = if p x then Js.insert comparefn x (List.filter p items)
    else List.filter p items.
Proof.
  intros Hx Hdom Hs. induction Hs as [|y rest Hrest IH Hy]; simpl.
  - now destruct (p x).
  - inversion Hdom as [|? ? Hdy Hdrest]; subst.
    destruct (Z.leb_spec (Js.sortCompare (comparefn x y)) 0) as [Hle | Hgt].
    + simpl. destruct (p x) eqn:Hpx; [| reflexivity].
      symmetry. apply insert_first. intros z Hz.
      assert (Hin : In z (y :: rest)).
      { destruct (p y); [destruct Hz as [<- | Hz]; [now left |] |];
          right; now apply filter_In in Hz. }
      destruct Hin as [<- | Hin]; [exact Hle |].
      rewrite Forall_forall in Hy, Hdrest.
      apply (trans x y z); auto.
    + simpl. rewrite (IH Hdrest).
      destruct (p y) eqn:Hpy; destruct (p x) eqn:Hpx; simpl;
        try reflexivity.
      destruct (Z.leb_spec (Js.sortCompare (comparefn x y)) 0);
        [lia | reflexivity].
Qed.

(** The sort is stable: what it does to a selection of the elements is
    what it does to all of them, restricted to the selection. *)
Lemma filter_sort p (items : list A) :
  Forall dom items ->
  List.filter p (Js.sort comparefn items)
  = Js.sort comparefn (List.filter p items).
Proof.
  induction 1 as [|x rest Hx Hrest IH]; simpl; [reflexivity |].
  rewrite filter_insert.
  - rewrite IH. now destruct (p x).
  - exact Hx.
  - rewrite Forall_forall in *. intros z Hz. apply Hrest.
    now apply (Permutation_in _ (JsFacts.sort_perm comparefn rest)).
  - now apply (JsFacts.sort_sorted comparefn dom).
Qed.
End Stable.

Section Redelivery.
Variable dateTime : string -> Js.number.
Variable localeCompare : string -> string -> Z.
Hypothesis collation : consistent localeCompare.

Local Abbreviation keepSorted := (keepSorted dateTime localeCompare).
Local Abbreviation handleDbChange := (handleDbChange dateTime localeCompare).
Local Abbreviation inOrder := (inOrder dateTime localeCompare).
Local Abbreviation timedFor := (timedFor dateTime).

Lemma keepSorted_filter p k rows :
  timedFor k rows ->
  Js.filter p (keepSorted k rows) = keepSorted k (Js.filter p rows).
Proof.
  unfold Js.filter. destruct k; simpl; try reflexivity.
  - apply (filter_sort _ (fun r => timeOf dateTime r <> None)).
    + intros a b Ha Hb.
      unfold Js.notAfter, byTimestampDesc, timeOf in *.
      destruct (dateTime (timestamp a)), (dateTime (timestamp b));
        simpl; lia || congruence.
    + intros a b c Ha Hb Hc.
      unfold Js.notAfter, byTimestampDesc, timeOf in *.
      destruct (dateTime (timestamp a)), (dateTime (timestamp b)),
        (dateTime (timestamp c)); simpl; lia || congruence.
  - apply (filter_sort _ (fun r => timeOf dateTime r <> None)).
    + intros a b Ha Hb.
      unfold Js.notAfter, byTimestampAsc, timeOf in *.
      destruct (dateTime (timestamp a)), (dateTime (timestamp b));
        simpl; lia || congruence.
    + intros a b c Ha Hb Hc.
      unfold Js.notAfter, byTimestampAsc, timeOf in *.
      destruct (dateTime (timestamp a)), (dateTime (timestamp b)),
        (dateTime (timestamp c)); simpl; lia || congruence.
  - intros _. apply (filter_sort _ (fun _ => True)).
    + intros a b _ _. now apply DataFacts.season_total.
    + intros a b c _ _ _. now apply DataFacts.season_trans.
    + apply Forall_forall. auto.
Qed.

Lemma timedFor_filter p k rows :
  timedFor k rows -> timedFor k (Js.filter p rows).
Proof.
  assert (H : timed dateTime rows -> timed dateTime (Js.filter p rows)).
  { unfold timed, Js.filter. rewrite !Forall_forall.
    intros Ht r Hr. apply filter_In in Hr. now apply Ht. }
  destruct k; simpl; auto.
Qed.

(** A collection as one event leaves it is in its order. *)
Lemma after_event_inOrder payload k rows :
  tableKeyMap (table payload) = Some k ->
  timedEvent dateTime payload -> timedFor k rows ->
  inOrder k (keepSorted k (applyEvent payload rows)).
Proof.
  intros Hk He Ht. apply (DataFacts.keepSorted_inOrder _ _ collation).
  now apply DataFacts.applyEvent_timedFor.
Qed.
End Redelivery.

Lemma uniqueIds_same_row rows a b :
  uniqueIds rows -> In a rows -> In b rows -> id a = id b -> a = b.
Proof.
  unfold uniqueIds. induction rows as [|r rest IH]; simpl; [tauto |].
  intros Hu Ha Hb Hid. inversion Hu as [|? ? Hn Hrest]; subst.
  destruct Ha as [<- | Ha], Hb as [<- | Hb]; auto.
  - exfalso. apply Hn. rewrite Hid. now apply in_map.
  - exfalso. apply Hn. rewrite <- Hid. now apply in_map.
Qed.

(** X4.  A DELETE, or an UPDATE on a collection with unique ids, that is
    delivered a second time changes nothing: applying it twice gives the
    snapshot that applying it once gives.  Timestamps are valid dates and
    the string comparison is consistent. *)
Theorem redelivered_update_or_delete_changes_nothing
  (dateTime : string -> Js.number) (localeCompare : string -> string -> Z)
  (payload : Payload) (s : AppState) :
  consistent localeCompare ->
  timedState dateTime s ->
  timedEvent dateTime payload ->
  eventType payload = "DELETE"
  \/ (eventType payload = "UPDATE"
      /\ forall k, tableKeyMap (table payload) = Some k ->
                   uniqueIds (getKey k s)) ->
  handleDbChange dateTime localeCompare payload
    (handleDbChange dateTime localeCompare payload s)
  = handleDbChange dateTime localeCompare payload s.
Proof.
  intros Hc Hs Hp Hkind.
  destruct (tableKeyMap (table payload)) as [k|] eqn:Hk.
  - rewrite !(DataFacts.handleDbChange_list _ _ _ _ k Hk).
    rewrite DataFacts.getKey_setKey_same, DataFacts.setKey_setKey.
    set (rows := getKey k s).
    assert (Ht : timedFor dateTime k rows)
      by now apply DataFacts.timedState_timedFor.
    set (once := keepSorted dateTime localeCompare k
                   (applyEvent payload rows)).
    assert (Ho : inOrder dateTime localeCompare k once)
      by now apply after_event_inOrder.
    assert (Hsame : applyEvent payload once = once).
    { destruct Hkind as [E | [E Hu]].
      - unfold applyEvent, recordIdOf. rewrite E. simpl.
        apply JsFacts.filter_all. intros r Hr.
        apply (Permutation_in _ (DataFacts.keepSorted_perm _ _ _ _)) in Hr.
        unfold applyEvent, recordIdOf in Hr. rewrite E in Hr. simpl in Hr.
        apply filter_In in Hr. tauto.
      - assert (Hunique : uniqueIds once).
        { apply (DataFacts.uniqueIds_perm (applyEvent payload rows)).
          - symmetry. apply DataFacts.keepSorted_perm.
          - apply DataFacts.applyEvent_uniqueIds. now apply Hu. }
        assert (Hnew : In (new payload) once).
        { apply (Permutation_in _
                   (Permutation_sym (DataFacts.keepSorted_perm _ _ _ _))).
          unfold applyEvent, recordIdOf. rewrite E. simpl.
          destruct (Js.findIndex _ rows) as [index|] eqn:Hf.
          - destruct (JsFacts.findIndex_Some _ _ _ Hf)
              as (before & x & after & _ & _ & _ & _ & Ha).
            rewrite Ha. apply in_or_app. right. now left.
          - unfold Js.push. apply in_or_app. right. now left. }
        unfold applyEvent, recordIdOf. rewrite E. simpl.
        destruct (Js.findIndex _ once) as [index|] eqn:Hf.
        + destruct (JsFacts.findIndex_Some _ _ _ Hf)
            as (before & x & after & Honce & _ & Hx & _ & Ha).
          rewrite Ha, Honce. apply String.eqb_eq in Hx.
          assert (x = new payload).
          { apply (uniqueIds_same_row once); auto.
            rewrite Honce. apply in_or_app. right. now left. }
          now subst x.
        + exfalso.
          pose proof (proj1 (JsFacts.findIndex_None _ _) Hf _ Hnew) as F.
          cbv beta in F. now rewrite String.eqb_refl in F. }
    rewrite Hsame.
    now rewrite (DataFacts.keepSorted_fixed _ _ _ _ Ho).
  - unfold handleDbChange. rewrite Hk.
    destruct (table payload =? "site_settings") eqn:Ht; [| reflexivity].
    destruct Hkind as [E | [E _]]; rewrite E; reflexivity.
Qed.

Lemma redelivered_update_or_delete_changes_nothing_witness :
  consistent lexCompare
  /\ timedState sampleDate twoMessages
  /\ timedEvent sampleDate (change "chat_messages" "UPDATE" m2Edited m2)
  /\ (eventType (change "chat_messages" "UPDATE" m2Edited m2) = "DELETE"
      \/ (eventType (change "chat_messages" "UPDATE" m2Edited m2) = "UPDATE"
          /\ forall k,
               tableKeyMap (table (change "chat_messages" "UPDATE"
                                     m2Edited m2)) = Some k ->
               uniqueIds (getKey k twoMessages)))
  /\ handleDbChange sampleDate lexCompare
       (change "chat_messages" "UPDATE" m2Edited m2)
       (handleDbChange sampleDate lexCompare
          (change "chat_messages" "UPDATE" m2Edited m2) twoMessages)
     = handleDbChange sampleDate lexCompare
         (change "chat_messages" "UPDATE" m2Edited m2) twoMessages.
Proof.
  assert (Hs : timedState sampleDate twoMessages).
  { split; repeat constructor; simpl; discriminate. }
  assert (Hp : timedEvent sampleDate
                 (change "chat_messages" "UPDATE" m2Edited m2)).
  { intros _ _. simpl. discriminate. }
  assert (Hk : eventType (change "chat_messages" "UPDATE" m2Edited m2)
               = "DELETE"
               \/ (eventType (change "chat_messages" "UPDATE" m2Edited m2)
                   = "UPDATE"
                   /\ forall k,
                        tableKeyMap (table (change "chat_messages" "UPDATE"
                                              m2Edited m2)) = Some k ->
                        uniqueIds (getKey k twoMessages))).
  { right. split; [reflexivity |]. intros k E. simpl in E.
    injection E as <-. unfold uniqueIds. simpl.
    repeat constructor; simpl; intuition discriminate. }
  split; [exact DataFacts.lexCompare_consistent |].
  split; [exact Hs |]. split; [exact Hp |]. split; [exact Hk |].
  exact (redelivered_update_or_delete_changes_nothing sampleDate lexCompare
           _ twoMessages DataFacts.lexCompare_consistent Hs Hp Hk).
Defined.

(** X5.  Round trip: on a collection in its order in which no row has the
    id of a record, the INSERT of that record followed by the DELETE of its
    id gives back the snapshot the two events started from, whole.
    Timestamps are valid dates and the string comparison is consistent. *)
Theorem insert_then_delete_restores
  (dateTime : string -> Js.number) (localeCompare : string -> string -> Z)
  (inserted deleted : Payload) (s : AppState) (k : StateKey) :
  consistent localeCompare ->
  tableKeyMap (table inserted) = Some k ->
  table deleted = table inserted ->
  eventType inserted = "INSERT" ->
  eventType deleted = "DELETE" ->
  id (old deleted) = id (new inserted) ->
  timedEvent dateTime inserted ->
  inOrder dateTime localeCompare k (getKey k s) ->
  (forall x, In x (getKey k s) -> id x <> id (new inserted)) ->
  handleDbChange dateTime localeCompare deleted
    (handleDbChange dateTime localeCompare inserted s)
  = s.
Proof.
  intros Hc Hk Htable Hins Hdel Hid Hp Ho Hfresh.
  assert (Hk' : tableKeyMap (table deleted) = Some k) by now rewrite Htable.
  rewrite (DataFacts.handleDbChange_list _ _ deleted _ k Hk').
  rewrite (DataFacts.handleDbChange_list _ _ inserted _ k Hk).
  rewrite DataFacts.getKey_setKey_same, DataFacts.setKey_setKey.
  set (rows := getKey k s) in *.
  assert (Hpush : applyEvent inserted rows = rows ++ [new inserted]).
  { unfold applyEvent, recordIdOf. rewrite Hins. simpl.
    replace (Js.some _ rows) with false; [reflexivity |].
    symmetry. apply JsFacts.some_false. now apply DataFacts.id_neq_eqb. }
  assert (Ht : timedFor dateTime k (rows ++ [new inserted])).
  { rewrite <- Hpush. apply DataFacts.applyEvent_timedFor; auto.
    now apply DataFacts.inOrder_timedFor with (localeCompare := localeCompare). }
  assert (Hback : Js.filter
                    (fun item => negb (id item =? id (new inserted)))
                    (rows ++ [new inserted]) = rows).
  { unfold Js.filter. rewrite filter_app. simpl.
    rewrite String.eqb_refl. simpl. rewrite app_nil_r.
    apply (JsFacts.filter_all
             (fun item => negb (id item =? id (new inserted)))).
    intros r Hr. apply negb_true_iff, String.eqb_neq. now apply Hfresh. }
  rewrite Hpush. unfold applyEvent at 1, recordIdOf. rewrite Hdel. simpl.
  rewrite Hid.
  rewrite (keepSorted_filter _ _ Hc _ _ _ Ht), Hback.
  rewrite !(DataFacts.keepSorted_fixed _ _ _ _ Ho).
  apply DataFacts.setKey_getKey.
Qed.

Lemma insert_then_delete_restores_witness :
  consistent lexCompare
  /\ tableKeyMap (table (change "announcements" "INSERT" a1 a1))
     = Some KAnnouncements
  /\ timedEvent sampleDate (change "announcements" "INSERT" a1 a1)
  /\ inOrder sampleDate lexCompare KAnnouncements
       (getKey KAnnouncements oneAnnouncement)
  /\ (forall x, In x (getKey KAnnouncements oneAnnouncement) ->
                id x <> id (new (change "announcements" "INSERT" a1 a1)))
  /\ handleDbChange sampleDate lexCompare
       (change "announcements" "DELETE" a1 a1)
       (handleDbChange sampleDate lexCompare
          (change "announcements" "INSERT" a1 a1) oneAnnouncement)
     = oneAnnouncement.
Proof.
  assert (Hp : timedEvent sampleDate (change "announcements" "INSERT" a1 a1)).
  { intros _ _. simpl. discriminate. }
  assert (Ho : inOrder sampleDate lexCompare KAnnouncements
                 (getKey KAnnouncements oneAnnouncement)).
  { split; repeat constructor. simpl. discriminate. }
  assert (Hn : forall x, In x (getKey KAnnouncements oneAnnouncement) ->
                 id x <> id (new (change "announcements" "INSERT" a1 a1))).
  { intros x [<- | []]. simpl. discriminate. }
  split; [exact DataFacts.lexCompare_consistent |].
  split; [reflexivity |]. split; [exact Hp |]. split; [exact Ho |].
  split; [exact Hn |].
  exact (insert_then_delete_restores sampleDate lexCompare
           (change "announcements" "INSERT" a1 a1)
           (change "announcements" "DELETE" a1 a1)
           oneAnnouncement KAnnouncements DataFacts.lexCompare_consistent
           eq_refl eq_refl eq_refl eq_refl eq_refl Hp Ho Hn).
Defined.

(** *** The last event wins *)

Lemma finalSettings_snoc payloads payload :
  finalSettings (payloads ++ [payload])
  = if writesSettings payload then Some payload else finalSettings payloads.
Proof. unfold finalSettings. now rewrite rev_app_distr. Qed.

(** X6.  After any sequence of change events the settings are the
    [newRecord] of the last INSERT or UPDATE on [site_settings], and the
    settings of the starting snapshot when the sequence has none; a DELETE
    on [site_settings] and every other event leave them alone. *)
Theorem final_settings_event_decides
  (dateTime : string -> Js.number) (localeCompare : string -> string -> Z)
  (payloads : list Payload) (s : AppState) :
  siteSettings (applyAll dateTime localeCompare payloads s)
  = match finalSettings payloads with
    | Some payload => new payload
    | None => siteSettings s
    end.
Proof.
  induction payloads as [|payload payloads IH] using rev_ind.
  - reflexivity.
  - rewrite DataFacts.applyAll_snoc, siteSettings_after, finalSettings_snoc.
    destruct (writesSettings payload); [reflexivity | exact IH].
Qed.

Lemma applyAll_uniqueIds dateTime localeCompare k payloads s :
  uniqueIds (getKey k s) ->
  uniqueIds (getKey k (applyAll dateTime localeCompare payloads s)).
Proof.
  intros Hu. induction payloads as [|payload payloads IH] using rev_ind.
  - exact Hu.
  - rewrite DataFacts.applyAll_snoc, getKey_after.
    destruct (match slotOf payload with
              | Some (ListSlot k') => StateKey_eqb k k'
              | _ => false
              end); [| exact IH].
    apply (DataFacts.uniqueIds_perm (applyEvent payload
             (getKey k (applyAll dateTime localeCompare payloads s)))).
    + symmetry. apply DataFacts.keepSorted_perm.
    + now apply DataFacts.applyEvent_uniqueIds.
Qed.

Lemma concerns_addressed k i payload :
  tableKeyMap (table payload) = Some k ->
  concerns k i payload
  = (recordIdOf payload =? i)
    && ((eventType payload =? "INSERT") || (eventType payload =? "UPDATE")
        || (eventType payload =? "DELETE")).
Proof.
  intros Hk. unfold concerns. rewrite Hk.
  replace (StateKey_eqb k k) with true; [reflexivity |].
  symmetry. now apply DataFacts.StateKey_eqb_eq.
Qed.

(** X7.  Last writer wins on the content of a row.  After any sequence of
    change events applied to a collection with unique ids, if the last
    INSERT, UPDATE or DELETE that concerns an id is an UPDATE, then the row
    stored under that id is exactly the [newRecord] of that UPDATE. *)
Theorem final_update_decides_row
  (dateTime : string -> Js.number) (localeCompare : string -> string -> Z)
  (k : StateKey) (i : string) (payloads : list Payload)
  (payload : Payload) (s : AppState) :
  uniqueIds (getKey k s) ->
  finalEvent k i payloads = Some payload ->
  eventType payload = "UPDATE" ->
  In (new payload) (getKey k (applyAll dateTime localeCompare payloads s))
  /\ forall r,
       In r (getKey k (applyAll dateTime localeCompare payloads s)) ->
       id r = i -> r = new payload.
Proof.
  intros Hu. revert payload.
  induction payloads as [|last payloads IH] using rev_ind;
    intros payload Hfinal Hupdate.
  - discriminate.
  - rewrite DataFacts.finalEvent_snoc in Hfinal.
    rewrite DataFacts.applyAll_snoc.
    set (st := applyAll dateTime localeCompare payloads s) in *.
    assert (Hst : uniqueIds (getKey k st)) by now apply applyAll_uniqueIds.
    destruct (concerns k i last) eqn:Hc.
    + injection Hfinal as ->.
      assert (Hk : tableKeyMap (table payload) = Some k).
      { unfold concerns in Hc.
        destruct (tableKeyMap (table payload)) as [k'|]; [| discriminate].
        apply andb_true_iff in Hc. destruct Hc as [Hc _].
        apply andb_true_iff in Hc. destruct Hc as [Hc _].
        apply DataFacts.StateKey_eqb_eq in Hc. now subst. }
      rewrite (concerns_addressed _ _ _ Hk) in Hc.
      apply andb_true_iff in Hc. destruct Hc as [Hid _].
      apply String.eqb_eq in Hid. unfold recordIdOf in Hid.
      rewrite Hupdate in Hid. simpl in Hid.
      rewrite (DataFacts.handleDbChange_same _ _ _ _ _ Hk).
      assert (Hin : In (new payload)
                      (keepSorted dateTime localeCompare k
                         (applyEvent payload (getKey k st)))).
      { apply (Permutation_in _
                 (Permutation_sym (DataFacts.keepSorted_perm _ _ _ _))).
        unfold applyEvent, recordIdOf. rewrite Hupdate. simpl.
        destruct (Js.findIndex _ (getKey k st)) as [index|] eqn:Hf.
        - destruct (JsFacts.findIndex_Some _ _ _ Hf)
            as (before & x & after & _ & _ & _ & _ & Ha).
          rewrite Ha. apply in_or_app. right. now left.
        - unfold Js.push. apply in_or_app. right. now left. }
      split; [exact Hin |].
      intros r Hr Hri.
      apply (uniqueIds_same_row
               (keepSorted dateTime localeCompare k
                  (applyEvent payload (getKey k st)))); auto.
      * apply (DataFacts.uniqueIds_perm (applyEvent payload (getKey k st))).
        -- symmetry. apply DataFacts.keepSorted_perm.
        -- now apply DataFacts.applyEvent_uniqueIds.
      * congruence.
    + destruct (IH payload Hfinal Hupdate) as [IHin IHrow].
      assert (Hidnew : id (new payload) = i).
      { unfold finalEvent in Hfinal. apply find_some in Hfinal.
        destruct Hfinal as [_ Hcp]. unfold concerns in Hcp.
        apply andb_true_iff in Hcp. destruct Hcp as [Hcp _].
        apply andb_true_iff in Hcp. destruct Hcp as [_ Hcp].
        apply String.eqb_eq in Hcp. unfold recordIdOf in Hcp.
        rewrite Hupdate in Hcp. exact Hcp. }
      destruct (tableKeyMap (table last)) as [k'|] eqn:Hk.
      * destruct (StateKey_eqb k k') eqn:Hkk.
        -- apply DataFacts.StateKey_eqb_eq in Hkk. subst k'.
           rewrite (concerns_addressed _ _ _ Hk) in Hc.
           rewrite (DataFacts.handleDbChange_same _ _ _ _ _ Hk).
           assert (Hkeep : forall r, id r = i ->
                     (In r (applyEvent last (getKey k st))
                      <-> In r (getKey k st))).
           { intros r Hri. split.
             - intros Hr. apply DataFacts.applyEvent_In in Hr.
               destruct Hr as [Hr | [-> Hkind]]; [exact Hr |].
               exfalso.
               assert (recordIdOf last = i).
               { unfold recordIdOf.
                 destruct Hkind as [E | E]; rewrite E; exact Hri. }
               assert ((recordIdOf last =? i) = true)
                 by now apply String.eqb_eq.
               destruct Hkind as [E | E]; rewrite E in Hc;
                 rewrite H0 in Hc; discriminate.
             - intros Hr. unfold applyEvent.
               destruct (DataFacts.eventType_cases last)
                 as [E | [E | [E | (E1 & E2 & E3)]]].
               + rewrite E. simpl. destruct (Js.some _ _); simpl; auto.
                 unfold Js.push. apply in_or_app. now left.
               + assert (Hrid : recordIdOf last <> i).
                 { rewrite E in Hc. simpl in Hc. rewrite andb_true_r in Hc.
                   now apply String.eqb_neq. }
                 unfold recordIdOf in *. rewrite E in *. simpl in *.
                 destruct (Js.findIndex _ (getKey k st)) as [index|] eqn:Hf.
                 * destruct (JsFacts.findIndex_Some _ _ _ Hf)
                     as (before & x & after & Hrows & _ & Hx & _ & Ha).
                   rewrite Ha. rewrite Hrows in Hr.
                   apply String.eqb_eq in Hx.
                   apply in_app_or in Hr. apply in_or_app.
                   destruct Hr as [Hr | [<- | Hr]]; [now left | | right; now right].
                   exfalso. congruence.
                 * unfold Js.push. apply in_or_app. now left.
               + assert (Hrid : recordIdOf last <> i).
                 { rewrite E in Hc. simpl in Hc. rewrite andb_true_r in Hc.
                   now apply String.eqb_neq. }
                 unfold recordIdOf in *. rewrite E in *. simpl in *.
                 unfold Js.filter. apply filter_In. split; [exact Hr |].
                 apply negb_true_iff, String.eqb_neq. congruence.
               + rewrite E1, E2, E3. exact Hr. }
           split.
           ++ apply (Permutation_in _
                (Permutation_sym (DataFacts.keepSorted_perm _ _ _ _))).
              now apply Hkeep.
           ++ intros r Hr Hri. apply IHrow; [| exact Hri].
              apply (Permutation_in _ (DataFacts.keepSorted_perm _ _ _ _))
                in Hr.
              now apply Hkeep.
        -- rewrite DataFacts.handleDbChange_other; [now split |].
           rewrite Hk. intros E. injection E as E. symmetry in E.
           apply DataFacts.StateKey_eqb_eq in E. congruence.
      * rewrite DataFacts.handleDbChange_other; [now split |].
        rewrite Hk. discriminate.
Qed.

Lemma final_update_decides_row_witness :
  uniqueIds (getKey KPlayers onePlayer)
  /\ finalEvent KPlayers "p1"
       [change "players" "INSERT" p1 p1;
        change "players" "UPDATE" p1Scored p1]
     = Some (change "players" "UPDATE" p1Scored p1)
  /\ forall r,
       In r (getKey KPlayers
               (applyAll sampleDate lexCompare
                  [change "players" "INSERT" p1 p1;
                   change "players" "UPDATE" p1Scored p1] onePlayer)) ->
       id r = "p1" -> r = p1Scored.
Proof.
  assert (H : uniqueIds (getKey KPlayers onePlayer)).
  { unfold uniqueIds. simpl. constructor; [intros [] | constructor]. }
  split; [exact H |]. split; [reflexivity |].
  exact (proj2 (final_update_decides_row sampleDate lexCompare KPlayers "p1"
                  [change "players" "INSERT" p1 p1;
                   change "players" "UPDATE" p1Scored p1]
                  (change "players" "UPDATE" p1Scored p1) onePlayer
                  H eq_refl eq_refl)).
Defined.

(** *** Which read a failed load reports *)

Lemma firstThrow_first reads before name res after err :
  reads = before ++ (name, res) :: after ->
  Forall (fun read => fatal (snd read) = false) before ->
  error res = Some err -> code err <> "PGRST116" ->
  firstThrow reads
  = Some ("Failed to fetch " ++ name ++ ": " ++ message err)%string.
Proof.
  intros -> Hbefore Herr Hcode.
  induction Hbefore as [|[n r0] rest Hr0 Hrest IH]; simpl.
  - unfold checkError. rewrite Herr.
    apply String.eqb_neq in Hcode. now rewrite Hcode.
  - simpl in Hr0. now rewrite (DataFacts.checkError_passes _ _ Hr0).
Qed.

Lemma loadedState_firstThrow r msg :
  firstThrow (batch r) = Some msg -> loadedState r = Throw msg.
Proof.
  unfold loadedState, batch. simpl.
  repeat match goal with
         | |- context [checkError ?res ?name] =>
             destruct (checkError res name); simpl; [| congruence]
         end.
  discriminate.
Qed.

(** X8.  A failed initial load reports the first failing read of the
    batch, in the order profiles, events, teams, players,
    participant_teams, replacement_requests, announcements, chat_messages,
    cnfl_history: the one line written to the console names that table and
    carries the message of its error, whatever the later reads returned. *)
Theorem failed_load_reports_first_failing_read
  (r : Reads) (s : Store)
  (before after : list (string * Response (list Row)))
  (name : string) (res : Response (list Row)) (err : PostgrestError) :
  batch r = before ++ (name, res) :: after ->
  Forall (fun read => fatal (snd read) = false) before ->
  error res = Some err ->
  code err <> "PGRST116" ->
  console (fetchData r s)
  = console s
    ++ [("Error fetching initial data: Error: Failed to fetch " ++ name
         ++ ": " ++ message err)%string].
Proof.
  intros Hbatch Hbefore Herr Hcode.
  pose proof (firstThrow_first _ _ _ _ _ _ Hbatch Hbefore Herr Hcode) as H.
  apply loadedState_firstThrow in H.
  unfold fetchData. rewrite H. reflexivity.
Qed.

Lemma failed_load_reports_first_failing_read_witness :
  batch deniedReads
  = [("profiles", rowsRead []); ("events", rowsRead []);
     ("teams", rowsRead [])]
    ++ ("players", playersRead deniedReads)
       :: [("participant_teams", rowsRead []);
           ("replacement_requests", rowsRead []);
           ("announcements", rowsRead []);
           ("chat_messages", rowsRead []);
           ("cnfl_history", rowsRead [])]
  /\ error (playersRead deniedReads) = Some denied
  /\ code denied <> "PGRST116"
  /\ console (fetchData deniedReads mounted)
     = console mounted
       ++ [("Error fetching initial data: Error: Failed to fetch "
            ++ "players" ++ ": " ++ message denied)%string].
Proof.
  assert (Hc : code denied <> "PGRST116") by (simpl; discriminate).
  split; [reflexivity |]. split; [reflexivity |]. split; [exact Hc |].
  apply (failed_load_reports_first_failing_read deniedReads mounted
           [("profiles", rowsRead []); ("events", rowsRead []);
            ("teams", rowsRead [])]
           [("participant_teams", rowsRead []);
            ("replacement_requests", rowsRead []);
            ("announcements", rowsRead []);
            ("chat_messages", rowsRead []);
            ("cnfl_history", rowsRead [])]
           "players" (playersRead deniedReads) denied eq_refl).
  - repeat constructor.
  - reflexivity.
  - exact Hc.
Defined.

(** *** Order after one event *)

(** X17.  An INSERT never overwrites: when a row of the addressed
    collection already has the id of [newRecord] and the collection is in
    its order, the whole snapshot is left as it was, even if [newRecord]
    differs from the row that is stored. *)
Theorem insert_of_present_id_is_ignored
  (dateTime : string -> Js.number) (localeCompare : string -> string -> Z)
  (payload : Payload) (s : AppState) (k : StateKey) (x : Row) :
  tableKeyMap (table payload) = Some k ->
  eventType payload = "INSERT" ->
  In x (getKey k s) ->
  id x = id (new payload) ->
  inOrder dateTime localeCompare k (getKey k s) ->
  handleDbChange dateTime localeCompare payload s = s.
Proof.
  intros Hk He Hx Hid Ho.
  rewrite (DataFacts.handleDbChange_list _ _ _ _ _ Hk).
  replace (applyEvent payload (getKey k s)) with (getKey k s).
  - rewrite (DataFacts.keepSorted_fixed _ _ _ _ Ho).
    apply DataFacts.setKey_getKey.
  - unfold applyEvent, recordIdOf. rewrite He. simpl.
    replace (Js.some _ (getKey k s)) with true; [reflexivity |].
    symmetry. apply JsFacts.some_true. exists x. split; [exact Hx |].
    now apply String.eqb_eq.
Qed.

Lemma insert_of_present_id_is_ignored_witness :
  tableKeyMap (table (change "players" "INSERT" p1Scored p1)) = Some KPlayers
  /\ In p1 (getKey KPlayers onePlayer)
  /\ id p1 = id (new (change "players" "INSERT" p1Scored p1))
  /\ inOrder sampleDate lexCompare KPlayers (getKey KPlayers onePlayer)
  /\ handleDbChange sampleDate lexCompare
       (change "players" "INSERT" p1Scored p1) onePlayer
     = onePlayer.
Proof.
  assert (Hin : In p1 (getKey KPlayers onePlayer)) by (simpl; tauto).
  assert (Ho : inOrder sampleDate lexCompare KPlayers
                 (getKey KPlayers onePlayer)) by exact I.
  split; [reflexivity |]. split; [exact Hin |]. split; [reflexivity |].
  split; [exact Ho |].
  exact (insert_of_present_id_is_ignored sampleDate lexCompare
           (change "players" "INSERT" p1Scored p1) onePlayer KPlayers p1
           eq_refl eq_refl Hin eq_refl Ho).
Defined.

(** X18.  One event puts its collection in order, whatever order it was in
    before: after any event addressed to Announcement, ChatMessage or
    CnflHistory that collection is in its order, so a snapshot that was
    loaded in another order is repaired by the first event on the
    collection.  Timestamps are valid dates and the string comparison is
    consistent. *)
Theorem one_event_restores_order
  (dateTime : string -> Js.number) (localeCompare : string -> string -> Z)
  (payload : Payload) (s : AppState) (k : StateKey) :
  consistent localeCompare ->
  tableKeyMap (table payload) = Some k ->
  timedFor dateTime k (getKey k s) ->
  timedEvent dateTime payload ->
  inOrder dateTime localeCompare k
    (getKey k (handleDbChange dateTime localeCompare payload s)).
Proof.
  intros Hc Hk Ht Hp. rewrite (DataFacts.handleDbChange_same _ _ _ _ _ Hk).
  now apply after_event_inOrder.
Qed.

Lemma one_event_restores_order_witness :
  consistent lexCompare
  /\ tableKeyMap (table (change "announcements" "DELETE" m1 m1))
     = Some KAnnouncements
  /\ timedFor sampleDate KAnnouncements
       (getKey KAnnouncements (setKey KAnnouncements [a0; a1] INITIAL_STATE))
  /\ timedEvent sampleDate (change "announcements" "DELETE" m1 m1)
  /\ inOrder sampleDate lexCompare KAnnouncements
       (getKey KAnnouncements
          (handleDbChange sampleDate lexCompare
             (change "announcements" "DELETE" m1 m1)
             (setKey KAnnouncements [a0; a1] INITIAL_STATE))).
Proof.
  assert (Ht : timedFor sampleDate KAnnouncements
                 (getKey KAnnouncements
                    (setKey KAnnouncements [a0; a1] INITIAL_STATE))).
  { repeat constructor; simpl; discriminate. }
  assert (Hp : timedEvent sampleDate (change "announcements" "DELETE" m1 m1)).
  { intros _ [E | E]; discriminate E. }
  split; [exact DataFacts.lexCompare_consistent |].
  split; [reflexivity |]. split; [exact Ht |]. split; [exact Hp |].
  exact (one_event_restores_order sampleDate lexCompare
           (change "announcements" "DELETE" m1 m1)
           (setKey KAnnouncements [a0; a1] INITIAL_STATE) KAnnouncements
           DataFacts.lexCompare_consistent eq_refl Ht Hp).
Defined.

(** The announcements [a0; a1], oldest first, are turned round by an event
    that removes nothing. *)
Example order_repaired :
  announcements
    (handleDbChange sampleDate lexCompare
       (change "announcements" "DELETE" m1 m1)
       (setKey KAnnouncements [a0; a1] INITIAL_STATE))
  = [a1; a0].
Proof. reflexivity. Qed.

Lemma sort_newest (comparefn : Row -> Row -> Js.number) x rows :
  StronglySorted (Js.notAfter comparefn) rows ->
  (forall y, In y rows ->
     Js.notAfter comparefn x y /\ ~ Js.notAfter comparefn y x) ->
  Js.sort comparefn (rows ++ [x]) = x :: rows.
Proof.
  intros Hs Hx. induction Hs as [|y rest Hrest IH Hy]; simpl.
  - reflexivity.
  - rewrite IH by (intros z Hz; apply Hx; now right). simpl.
    destruct (Hx y (or_introl eq_refl)) as [_ Hyx].
    unfold Js.notAfter in Hyx.
    destruct (Z.leb_spec (Js.sortCompare (comparefn y x)) 0); [lia |].
    f_equal. apply insert_first.
    rewrite Forall_forall in Hy. exact Hy.
Qed.

Lemma sorted_snoc {A} (R : A -> A -> Prop) rows x :
  StronglySorted R rows -> (forall y, In y rows -> R y x) ->
  StronglySorted R (rows ++ [x]).
Proof.
  intros Hs Hx. induction Hs as [|y rest Hrest IH Hy]; simpl.
  - repeat constructor.
  - constructor.
    + apply IH. intros z Hz. apply Hx. now right.
    + apply Forall_app. split; [exact Hy |].
      repeat constructor. apply Hx. now left.
Qed.

(** X19.  Where a new row lands in the two timestamp-ordered collections.
    An INSERT of a chat message that is at least as recent as every
    message of the collection, in its order, is appended at the end; an
    INSERT of an announcement that is strictly more recent than every
    announcement of the collection, in its order, is put first.  The id of
    the record is new to the collection and its timestamp is a valid
    date. *)
Theorem new_row_lands_at_the_recent_end
  (dateTime : string -> Js.number) (localeCompare : string -> string -> Z)
  (payload : Payload) (s : AppState) :
  eventType payload = "INSERT" ->
  timeOf dateTime (new payload) <> None ->
  (table payload = "chat_messages" ->
   inOrder dateTime localeCompare KChatMessages (chatMessages s) ->
   (forall y, In y (chatMessages s) ->
      id y <> id (new payload) /\ timeLe dateTime y (new payload)) ->
   chatMessages (handleDbChange dateTime localeCompare payload s)
   = chatMessages s ++ [new payload])
  /\ (table payload = "announcements" ->
      inOrder dateTime localeCompare KAnnouncements (announcements s) ->
      (forall y, In y (announcements s) ->
         id y <> id (new payload)
         /\ timeLe dateTime y (new payload)
         /\ ~ timeLe dateTime (new payload) y) ->
      announcements (handleDbChange dateTime localeCompare payload s)
      = new payload :: announcements s).
Proof.
  intros He Hvalid.
  assert (Hpush : forall rows,
             (forall y, In y rows -> id y <> id (new payload)) ->
             applyEvent payload rows = rows ++ [new payload]).
  { intros rows Hn. unfold applyEvent, recordIdOf. rewrite He. simpl.
    replace (Js.some _ rows) with false; [reflexivity |].
    symmetry. apply JsFacts.some_false. now apply DataFacts.id_neq_eqb. }
  split.
  - intros Ht [Htimed Hsorted] Hrows.
    assert (Hk : tableKeyMap (table payload) = Some KChatMessages)
      by now rewrite Ht.
    change (chatMessages ?st) with (getKey KChatMessages st).
    rewrite (DataFacts.handleDbChange_same _ _ _ _ _ Hk).
    rewrite Hpush by (intros y Hy; now apply Hrows).
    apply DataFacts.keepSorted_fixed. split.
    + unfold timed in *. apply Forall_app. split; [exact Htimed |].
      now repeat constructor.
    + apply sorted_snoc; [exact Hsorted |].
      intros y Hy. now apply Hrows.
  - intros Ht [Htimed Hsorted] Hrows.
    assert (Hk : tableKeyMap (table payload) = Some KAnnouncements)
      by now rewrite Ht.
    change (announcements ?st) with (getKey KAnnouncements st).
    rewrite (DataFacts.handleDbChange_same _ _ _ _ _ Hk).
    rewrite Hpush by (intros y Hy; now apply Hrows).
    unfold keepSorted. apply (sort_newest (byTimestampDesc dateTime)).
    + revert Hsorted. apply DataFacts.StronglySorted_weaken.
      intros a b _ _. apply DataFacts.notAfter_desc.
    + intros y Hy. destruct (Hrows y Hy) as (_ & Hle & Hnle).
      unfold timed in Htimed. rewrite Forall_forall in Htimed.
      specialize (Htimed y Hy). split.
      * now apply DataFacts.notAfter_desc.
      * intros Hna. apply Hnle.
        now apply (DataFacts.desc_notAfter dateTime y (new payload)).
Qed.

Lemma new_row_lands_at_the_recent_end_witness :
  eventType (change "announcements" "INSERT" a1 a1) = "INSERT"
  /\ timeOf sampleDate (new (change "announcements" "INSERT" a1 a1)) <> None
  /\ table (change "announcements" "INSERT" a1 a1) = "announcements"
  /\ inOrder sampleDate lexCompare KAnnouncements
       (announcements oneAnnouncement)
  /\ (forall y, In y (announcements oneAnnouncement) ->
        id y <> id (new (change "announcements" "INSERT" a1 a1))
        /\ timeLe sampleDate y (new (change "announcements" "INSERT" a1 a1))
        /\ ~ timeLe sampleDate
               (new (change "announcements" "INSERT" a1 a1)) y)
  /\ announcements
       (handleDbChange sampleDate lexCompare
          (change "announcements" "INSERT" a1 a1) oneAnnouncement)
     = new (change "announcements" "INSERT" a1 a1)
       :: announcements oneAnnouncement.
Proof.
  assert (Hv : timeOf sampleDate (new (change "announcements" "INSERT" a1 a1))
               <> None) by (simpl; discriminate).
  assert (Ho : inOrder sampleDate lexCompare KAnnouncements
                 (announcements oneAnnouncement)).
  { split; repeat constructor. simpl. discriminate. }
  assert (Hy : forall y, In y (announcements oneAnnouncement) ->
             id y <> id (new (change "announcements" "INSERT" a1 a1))
             /\ timeLe sampleDate y
                  (new (change "announcements" "INSERT" a1 a1))
             /\ ~ timeLe sampleDate
                    (new (change "announcements" "INSERT" a1 a1)) y).
  { intros y [<- | []]. split; [simpl; discriminate |].
    split; [vm_compute; discriminate | vm_compute; intros H; now apply H]. }
  split; [reflexivity |]. split; [exact Hv |]. split; [reflexivity |].
  split; [exact Ho |]. split; [exact Hy |].
  exact (proj2 (new_row_lands_at_the_recent_end sampleDate lexCompare
                  (change "announcements" "INSERT" a1 a1) oneAnnouncement
                  eq_refl Hv) eq_refl Ho Hy).
Defined.

End StreamFacts.

(* ===================================================================== *)
(** ** The session state machine *)
(* ===================================================================== *)

Module SessionFacts.
Import Session.

(** The profile lookup writes [user] and the console only. *)
Lemma updateUserProfile_loading supabase sessionUser w :
  loading (snd (updateUserProfile supabase sessionUser w)) = loading w
  /\ calls (snd (updateUserProfile supabase sessionUser w))
     = calls w ++ [SelectProfile (userId sessionUser)].
Proof.
  unfold updateUserProfile, bind, call. simpl.
  destruct (profileData _); [split; reflexivity |].
  destruct (profileError _); split; reflexivity.
Qed.

Lemma updateUserProfileViaApi_loading api session w :
  loading (snd (updateUserProfileViaApi api session w)) = loading w.
Proof.
  unfold updateUserProfileViaApi, bind, call.
  destruct session as [sessionUser|]; [| reflexivity]. simpl.
  destruct (apiGetProfile api sessionUser) as [[profile|]|msg]; reflexivity.
Qed.

(** X9.  [updatePassword] rejects the empty password on the spot: the
    result is the error "Password cannot be empty." and nothing is sent to
    the gateway, nothing changes.  Any other password is sent in exactly
    one request, and the result is the gateway's error message, or no
    error. *)
Theorem empty_password_never_reaches_gateway
  (supabase : Client) (w : Provider) :
  updatePassword supabase "" w
  = (Some {| Auth.message := "Password cannot be empty." |}, w)
  /\ forall password,
       password <> "" ->
       fst (updatePassword supabase password w)
       = relay (authUpdateUser supabase password)
       /\ calls (snd (updatePassword supabase password w))
          = calls w ++ [UpdateUser password]
       /\ user (snd (updatePassword supabase password w)) = user w
       /\ loading (snd (updatePassword supabase password w)) = loading w.
Proof.
  split; [reflexivity |].
  intros password Hne. unfold updatePassword.
  apply String.eqb_neq in Hne. rewrite Hne.
  repeat split.
Qed.

Lemma empty_password_never_reaches_gateway_witness :
  "secret" <> ""
  /\ fst (updatePassword online "secret" starting) = None
  /\ calls (snd (updatePassword online "secret" starting))
     = [UpdateUser "secret"].
Proof.
  assert (H : "secret" <> "") by discriminate.
  split; [exact H |].
  pose proof (proj2 (empty_password_never_reaches_gateway online starting)
                "secret" H) as (Hres & Hcalls & _).
  split; [exact Hres | exact Hcalls].
Defined.

(** X10.  The session listener, in both providers.  It never raises the
    loading flag: the flag is cleared after a notification of the kinds
    SIGNED_IN, SIGNED_OUT, USER_UPDATED (and INITIAL_SESSION in the provider
    that goes through the api module) and is left as it was after any
    other.  A notification without a session clears the user without a
    call to the gateway. *)
Theorem listener_clears_loading_on_settling_events
  (supabase : Client) (api : Api) (event : string)
  (session : option SupabaseUser) (w : Provider) :
  (loading (snd (onAuthStateChange supabase event session w))
   = if settles event then false else loading w)
  /\ (loading (snd (onAuthStateChangeViaApi api event session w))
      = if settlesViaApi event then false else loading w)
  /\ (session = None ->
      user (snd (onAuthStateChange supabase event session w)) = None
      /\ calls (snd (onAuthStateChange supabase event session w)) = calls w
      /\ user (snd (onAuthStateChangeViaApi api event session w)) = None
      /\ calls (snd (onAuthStateChangeViaApi api event session w))
         = calls w).
Proof.
  split; [| split].
  - unfold onAuthStateChange, bind.
    destruct session as [sessionUser|].
    + pose proof (updateUserProfile_loading supabase sessionUser w) as [H _].
      destruct (updateUserProfile supabase sessionUser w) as [u w'].
      simpl in *. now destruct (settles event).
    + simpl. now destruct (settles event).
  - unfold onAuthStateChangeViaApi, bind.
    pose proof (updateUserProfileViaApi_loading api session w) as H.
    destruct (updateUserProfileViaApi api session w) as [u w'].
    simpl in *. now destruct (settlesViaApi event).
  - intros ->. unfold onAuthStateChange, onAuthStateChangeViaApi, bind.
    simpl. destruct (settles event), (settlesViaApi event); repeat split.
Qed.

Lemma listener_clears_loading_on_settling_events_witness :
  @None SupabaseUser = None
  /\ user (snd (onAuthStateChange online "SIGNED_OUT" None starting)) = None
  /\ calls (snd (onAuthStateChange online "SIGNED_OUT" None starting))
     = calls starting.
Proof.
  split; [reflexivity |].
  pose proof (proj2 (proj2 (listener_clears_loading_on_settling_events
                              online workingApi "SIGNED_OUT" None starting))
                eq_refl) as (Hu & Hc & _).
  split; [exact Hu | exact Hc].
Defined.

(** X11.  In the provider that goes through the api module the user is
    set exactly when there is a session user and the profile lookup
    resolves to a profile, and then it is that session user with that
    profile; no session, no profile row and a lookup that throws all leave
    the user cleared. *)
Theorem user_set_iff_session_and_profile
  (api : Api) (session : option SupabaseUser) (w : Provider) (u : Auth.User) :
  user (snd (updateUserProfileViaApi api session w)) = Some u
  <-> exists sessionUser profile,
        session = Some sessionUser
        /\ apiGetProfile api sessionUser = Data.Normal (Some profile)
        /\ u = userOf sessionUser profile.
Proof.
  unfold updateUserProfileViaApi, bind, call.
  destruct session as [sessionUser|]; simpl.
  - destruct (apiGetProfile api sessionUser) as [[profile|]|msg] eqn:Hp;
      simpl; split.
    + intros [= <-]. exists sessionUser, profile. auto.
    + intros (su & p & Hs & Hq & ->). injection Hs as Hs. subst su.
      rewrite Hp in Hq. injection Hq as Hq. now subst p.
    + discriminate.
    + intros (su & p & Hs & Hq & _). injection Hs as Hs. subst su.
      rewrite Hp in Hq. discriminate.
    + discriminate.
    + intros (su & p & Hs & Hq & _). injection Hs as Hs. subst su.
      rewrite Hp in Hq. discriminate.
  - split; [discriminate |]. intros (su & p & Hs & _). discriminate.
Qed.

(** X12.  Start-up always ends with the loading flag cleared.  In the
    provider that goes through the api module this holds also when
    resolving the session throws, in which case the user is left as it was,
    one line is written to the console and no profile is looked up; in the
    provider that asks the gateway itself, a start without a session leaves
    the user as it was and asks for the session only. *)
Theorem startup_always_clears_loading
  (supabase : Client) (api : Api) (w : Provider) :
  loading (snd (initializeSession api w)) = false
  /\ loading (snd (getInitialUser supabase w)) = false
  /\ (forall msg,
        apiGetSession api = Data.Throw msg ->
        user (snd (initializeSession api w)) = user w
        /\ calls (snd (initializeSession api w)) = calls w ++ [GetSession]
        /\ console (snd (initializeSession api w))
           = console w
             ++ [("Error initializing session: Error: " ++ msg)%string])
  /\ (authGetSession supabase = None ->
      user (snd (getInitialUser supabase w)) = user w
      /\ calls (snd (getInitialUser supabase w)) = calls w ++ [GetSession]).
Proof.
  split; [| split; [| split]].
  - unfold initializeSession, bind. simpl.
    destruct (apiGetSession api) as [session|msg]; simpl.
    + now destruct (updateUserProfileViaApi api session _).
    + reflexivity.
  - unfold getInitialUser, bind. simpl.
    destruct (authGetSession supabase) as [sessionUser|]; simpl.
    + now destruct (updateUserProfile supabase sessionUser _).
    + reflexivity.
  - intros msg Hthrow. unfold initializeSession, bind. simpl.
    rewrite Hthrow. simpl. repeat split.
  - intros Hnone. unfold getInitialUser, bind. simpl.
    rewrite Hnone. simpl. split; reflexivity.
Qed.

Lemma startup_always_clears_loading_witness :
  apiGetSession failingApi = Data.Throw "Failed to fetch"
  /\ loading (snd (initializeSession failingApi starting)) = false
  /\ user (snd (initializeSession failingApi starting)) = user starting.
Proof.
  split; [reflexivity |].
  pose proof (startup_always_clears_loading online failingApi starting)
    as (Hl & _ & Ht & _).
  split; [exact Hl |].
  exact (proj1 (Ht "Failed to fetch" eq_refl)).
Defined.

(** X13.  Mock login.  Whatever the credentials, the loading flag is clear
    afterwards.  A login that is accepted signs in a user whose email is the
    email that was entered; one that is refused leaves the user as it was;
    and an empty password is always refused. *)
Theorem mock_login_outcomes
  (admin : option Auth.User) (now email password : string) (w : Provider) :
  loading (snd (mockLogin admin now email password w)) = false
  /\ (fst (mockLogin admin now email password w) = None ->
      exists u, user (snd (mockLogin admin now email password w)) = Some u
                /\ Auth.email u = email)
  /\ (fst (mockLogin admin now email password w) <> None ->
      user (snd (mockLogin admin now email password w)) = user w)
  /\ (password = "" -> fst (mockLogin admin now email password w) <> None).
Proof.
  assert (Hempty : password = "" ->
                   includesAt email && negb (password =? "") = false).
  { intros ->. simpl. apply andb_false_r. }
  unfold mockLogin, bind, setLoading, setUser, ret. simpl.
  destruct (match admin with
            | Some a => (email =? Auth.email a) && (password =? "password")
            | None => false
            end) eqn:Hadmin; simpl.
  - destruct admin as [a|]; [| discriminate].
    apply andb_true_iff in Hadmin. destruct Hadmin as [He Hp].
    apply String.eqb_eq in He, Hp.
    split; [reflexivity | split; [| split]].
    + intros _. exists a. split; [reflexivity | now symmetry].
    + intros H. now contradiction H.
    + intros E. exfalso. congruence.
  - destruct (includesAt email && negb (password =? "")) eqn:Hi; simpl.
    + split; [reflexivity | split; [| split]].
      * intros _. eexists. split; reflexivity.
      * intros H. now contradiction H.
      * intros H. discriminate (Hempty H).
    + split; [reflexivity | split; [| split]].
      * discriminate.
      * reflexivity.
      * discriminate.
Qed.

Lemma mock_login_outcomes_witness :
  fst (mockLogin (Some mockAdmin) "1700000000000" "admin@cnfl.com"
         "password" starting) = None
  /\ exists u,
       user (snd (mockLogin (Some mockAdmin) "1700000000000"
                    "admin@cnfl.com" "password" starting)) = Some u
       /\ Auth.email u = "admin@cnfl.com".
Proof.
  split; [reflexivity |].
  exact (proj1 (proj2 (mock_login_outcomes (Some mockAdmin) "1700000000000"
                         "admin@cnfl.com" "password" starting)) eq_refl).
Defined.

End SessionFacts.

(* ===================================================================== *)
(** ** The write actions *)
(* ===================================================================== *)

Module ActionFacts.
Import Data Actions.

Lemma handleSupabaseError_result error context w :
  fst (handleSupabaseError error context w) = error
  /\ queries (snd (handleSupabaseError error context w)) = queries w.
Proof. unfold handleSupabaseError. destruct error; split; reflexivity. Qed.

(** X14.  [addBulkPlayers] sends one insert into [players] whose rows are
    the given players in the given order, each with an empty [points] and
    otherwise as it was given: points that a caller passes along are not
    stored. *)
Theorem bulk_players_start_without_points
  (supabase : Query -> Response Body) (players : list Row) (w : Effects) :
  exists rows,
    queries (snd (perform supabase (addBulkPlayers players) w))
    = queries w
      ++ [{| queryTable := "players"; verb := Insert; body := ManyRows rows;
             eqId := None; selects := true; single := false |}]
    /\ length rows = length players
    /\ Forall (fun r => points r = []) rows
    /\ Forall2 (fun p r =>
                  id r = id p /\ timestamp r = timestamp p
                  /\ seasonNumber r = seasonNumber p
                  /\ showParticipantTeams r = showParticipantTeams p
                  /\ columns r = columns p)
         players rows.
Proof.
  exists (map withoutPoints players). split; [| split; [| split]].
  - unfold perform, bind, send. simpl.
    destruct (handleSupabaseError_result
                (error (supabase (queryOf (addBulkPlayers players))))
                "addBulkPlayers"
                {| queries := queries w ++ [queryOf (addBulkPlayers players)];
                   errors := errors w; warnings := warnings w;
                   alerts := alerts w |}) as [_ Hq].
    simpl in Hq.
    destruct (handleSupabaseError _ _ _) as [err w']. simpl in *.
    exact Hq.
  - apply length_map.
  - apply Forall_forall. intros r Hr. apply in_map_iff in Hr.
    destruct Hr as (p & <- & _). reflexivity.
  - induction players as [|p rest IH]; simpl; constructor; auto.
Qed.

(** X15.  A write action that returns the written record: when the gateway
    reports an error it returns [null], writes one line that names the
    action and carries the error's message to the console, and has sent
    exactly the one query of the action; when the gateway reports none it
    returns the gateway's data and writes nothing. *)
Theorem failed_write_returns_null_and_logs
  (supabase : Query -> Response Body) (a : Action) (w : Effects) :
  returnsData a = true ->
  (forall err,
     error (supabase (queryOf a)) = Some err ->
     perform supabase a w
     = (Value None,
        {| queries := queries w ++ [queryOf a];
           errors := errors w
                     ++ [("Supabase error in " ++ nameOf a ++ ": "
                          ++ message err)%string];
           warnings := warnings w; alerts := alerts w |}))
  /\ (error (supabase (queryOf a)) = None ->
      perform supabase a w
      = (Value (data (supabase (queryOf a))),
         {| queries := queries w ++ [queryOf a]; errors := errors w;
            warnings := warnings w; alerts := alerts w |})).
Proof.
  intros Hr. unfold perform, bind, send, handleSupabaseError. split.
  - intros err Herr. rewrite Herr, Hr. reflexivity.
  - intros Hnone. rewrite Hnone, Hr. reflexivity.
Qed.

Lemma failed_write_returns_null_and_logs_witness :
  returnsData (updatePlayer p1Scored) = true
  /\ error (refusing (queryOf (updatePlayer p1Scored))) = Some denied
  /\ perform refusing (updatePlayer p1Scored) quiet
     = (Value None,
        {| queries := queries quiet ++ [queryOf (updatePlayer p1Scored)];
           errors := errors quiet
                     ++ [("Supabase error in "
                          ++ nameOf (updatePlayer p1Scored) ++ ": "
                          ++ message denied)%string];
           warnings := warnings quiet; alerts := alerts quiet |}).
Proof.
  split; [reflexivity |]. split; [reflexivity |].
  exact (proj1 (failed_write_returns_null_and_logs refusing
                  (updatePlayer p1Scored) quiet eq_refl) denied eq_refl).
Defined.

(** X16.  The seven actions without a return value (the five deletes,
    [updatePlayerPoints] and [updateReplacementRequest]) give their caller
    the same result whether the gateway accepted the write or refused it:
    a refusal shows on the console only. *)
Theorem silent_write_hides_failure
  (accepted refused : Query -> Response Body) (a : Action)
  (w w' : Effects) :
  returnsData a = false ->
  fst (perform accepted a w) = fst (perform refused a w')
  /\ fst (perform refused a w') = Undefined.
Proof.
  intros Hr. unfold perform, bind, send. simpl.
  destruct (handleSupabaseError (error (accepted (queryOf a))) _ _).
  destruct (handleSupabaseError (error (refused (queryOf a))) _ _).
  rewrite Hr. split; reflexivity.
Qed.

Lemma silent_write_hides_failure_witness :
  returnsData (deletePlayer "p1") = false
  /\ fst (perform echoing (deletePlayer "p1") quiet)
     = fst (perform refusing (deletePlayer "p1") quiet).
Proof.
  split; [reflexivity |].
  exact (proj1 (silent_write_hides_failure echoing refusing
                  (deletePlayer "p1") quiet quiet eq_refl)).
Defined.

(** In mock mode no action sends a query, and each returns [null]. *)
Lemma mock_action_sends_nothing supabase a w :
  fst (actions supabase true a w) = Value None
  /\ queries (snd (actions supabase true a w)) = queries w.
Proof. split; reflexivity. Qed.

End ActionFacts.
